(** * convex-svelte: the reactive hooks [useQuery] and [usePaginatedQuery]

    A shallow embedding of [src/lib/client.svelte.ts].  A hook instance is a
    record holding its reactive cells ([$state]), the parameters it closes
    over and the part of the external [ConvexClient] it talks to; every
    [$derived] value is a function of that record, every [$effect] and every
    callback handed to [client.onUpdate] is a transition on it.  One derived
    value, [syncResult], reads something that is no signal, the client's
    local results: for it the value it holds is modelled as well. *)

From stdpp Require Import gmap strings list fin_maps pretty sorting.
From Stdlib Require Import ZArith.

(** ** JavaScript conventions shared by both hooks *)

(** [T | (() => T)]: a parameter given as a value or as a closure returning
    one ([typeof x === 'function' ? x() : x]). *)
Inductive OrClosure (A : Type) : Type :=
| Given (a : A)
| Closure (f : unit → A).
Arguments Given {A} _.
Arguments Closure {A} _.

Definition call {A : Type} (x : OrClosure A) : A :=
  match x with
  | Given a => a
  | Closure f => f tt
  end.

(** What the hooks need from the JavaScript runtime and from [convex/values]:
    truthiness of a query result ([!!v]), the serialisation
    [JSON.stringify(convexToJson(args))] used as query key, and
    [structuredClone] on an [Error] (on plain values a structured clone is an
    equal value, so it is the identity here). *)
Class Runtime (V E Args : Type) : Type := {
  truthy : V → bool;
  argsKey : Args → string;
  structuredCloneError : E → E
}.

(** ** The subscription side of [ConvexClient]

    [client.onUpdate(query, args, onData, onError)] registers a subscription
    and returns its [unsubscribe] closure.  The registry keeps every request
    in call order (the position is the subscription's identity) and the set of
    subscriptions whose [unsubscribe] has been invoked. *)
Module Registry.

Record t (Req : Type) : Type := Build {
  calls : list Req;
  cancelled : gset nat
}.
Arguments Build {Req} calls cancelled.
Arguments calls {Req} _.
Arguments cancelled {Req} _.

Definition empty {Req : Type} : t Req := Build [] ∅.

Definition onUpdate {Req : Type} (req : Req) (r : t Req) : t Req * nat :=
  (Build (calls r ++ [req]) (cancelled r), length (calls r)).

Definition unsubscribe {Req : Type} (id : nat) (r : t Req) : t Req :=
  Build (calls r) ({[id]} ∪ cancelled r).

(** The request of a subscription that still receives updates. *)
Definition live {Req : Type} (r : t Req) (id : nat) : option Req :=
  if decide (id ∈ cancelled r) then None else calls r !! id.

End Registry.

(** ** [useQuery] *)
Module UseQuery.

(** [FunctionReturnType<Query> | Error | undefined]. *)
Inductive Result (V E : Type) : Type :=
| Undefined
| Value (v : V)
| Error (e : E).
Arguments Undefined {V E}.
Arguments Value {V E} _.
Arguments Error {V E} _.

(** [UseQueryOptions]: every field is optional. *)
Record UseQueryOptions (V : Type) : Type := {
  initialData : option V;
  keepPreviousData : option bool;
  enabled : option (OrClosure bool)
}.
Arguments initialData {V} _.
Arguments keepPreviousData {V} _.
Arguments enabled {V} _.

(** The object [parseOptions] returns: [enabled] resolved to a boolean. *)
Record ParsedOptions (V : Type) : Type := {
  parsed_initialData : option V;
  parsed_keepPreviousData : option bool;
  parsed_enabled : bool
}.
Arguments parsed_initialData {V} _.
Arguments parsed_keepPreviousData {V} _.
Arguments parsed_enabled {V} _.

(** The [$state] object of the hook. *)
Record State (V E Args : Type) : Type := {
  state_result : Result V E;
  state_lastResult : Result V E;
  state_argsForLastResult : option Args;
  state_haveArgsEverChanged : bool
}.
Arguments state_result {V E Args} _.
Arguments state_lastResult {V E Args} _.
Arguments state_argsForLastResult {V E Args} _.
Arguments state_haveArgsEverChanged {V E Args} _.

(** The client as [useQuery] sees it: [client.disabled], the table behind
    [client.client.localQueryResult] (keyed by the serialised args; an [Error]
    entry is a result the call throws) and the subscriptions. *)
Record Client (V E Args : Type) : Type := {
  disabled : bool;
  localResults : gmap string (Result V E);
  registry : Registry.t Args
}.
Arguments disabled {V E Args} _.
Arguments localResults {V E Args} _.
Arguments registry {V E Args} _.

(** One mounted [useQuery]: its parameters, [initialArgs], the reactive state,
    the client, and what the subscription effect last returned for cleanup
    (the subscription and the [argsObject] its callbacks captured). *)
Record Hook (V E Args : Type) : Type := {
  args : OrClosure Args;
  options : OrClosure (UseQueryOptions V);
  initialArgs : Args;
  state : State V E Args;
  client : Client V E Args;
  subscription : option (nat * Args)
}.
Arguments args {V E Args} _.
Arguments options {V E Args} _.
Arguments initialArgs {V E Args} _.
Arguments state {V E Args} _.
Arguments client {V E Args} _.
Arguments subscription {V E Args} _.

Section hook.
Context {V E Args : Type} `{!Runtime V E Args}.

Definition parseArgs (a : OrClosure Args) : Args := call a.

Definition parseOptions (o : OrClosure (UseQueryOptions V)) : ParsedOptions V :=
  let options := call o in
  let resolvedEnabled :=
    match enabled options with
    | Some e => call e
    | None => true
    end in
  {| parsed_initialData := initialData options;
     parsed_keepPreviousData := keepPreviousData options;
     parsed_enabled := resolvedEnabled |}.

(** [!!x] for the JavaScript values the hook tests. *)
Definition truthyResult (r : Result V E) : bool :=
  match r with
  | Undefined => false
  | Value v => truthy v
  | Error _ => true
  end.

Definition truthyOption (o : option V) : bool :=
  match o with
  | Some v => truthy v
  | None => false
  end.

Definition truthyFlag (o : option bool) : bool :=
  match o with
  | Some b => b
  | None => false
  end.

Definition ofOption (o : option V) : Result V E :=
  match o with
  | Some v => Value v
  | None => Undefined
  end.

Definition isUndefined (r : Result V E) : bool :=
  match r with
  | Undefined => true
  | _ => false
  end.

(** [client.client.localQueryResult(getFunctionName(query), args)] inside the
    [try]: a thrown [Error] becomes the value. *)
Definition localQueryResult (c : Client V E Args) (a : Args) : Result V E :=
  match localResults c !! argsKey a with
  | Some r => r
  | None => Undefined
  end.

(** *** The derived values *)

Definition sameArgsAsLastResult (h : Hook V E Args) : bool :=
  match state_argsForLastResult (state h) with
  | Some a => bool_decide (argsKey a = argsKey (parseArgs (args h)))
  | None => false
  end.

Definition staleAllowed (h : Hook V E Args) : bool :=
  truthyFlag (parsed_keepPreviousData (parseOptions (options h)))
  && truthyResult (state_lastResult (state h)).

(** What a computation of [syncResult] yields.  Svelte computes a [$derived]
    again only after a signal it read has changed, and the client's table is
    no signal: [Memo] pairs the hook with the value [syncResult] holds. *)
Definition syncResult (h : Hook V E Args) : Result V E :=
  let opts := parseOptions (options h) in
  if truthyOption (parsed_initialData opts)
     && negb (state_haveArgsEverChanged (state h))
  then state_result (state h)
  else if disabled (client h) then Undefined
  else localQueryResult (client h) (parseArgs (args h)).

Definition result (h : Hook V E Args) : Result V E :=
  match syncResult h with
  | Undefined => if staleAllowed h then state_lastResult (state h) else Undefined
  | r => r
  end.

Definition isStale (h : Hook V E Args) : bool :=
  isUndefined (syncResult h) && staleAllowed h
  && negb (sameArgsAsLastResult h) && negb (isUndefined (result h)).

Definition data (h : Hook V E Args) : option V :=
  match result h with
  | Value v => Some v
  | _ => None
  end.

Definition error (h : Hook V E Args) : option E :=
  match result h with
  | Error e => Some e
  | _ => None
  end.

Definition isLoading (h : Hook V E Args) : bool :=
  let opts := parseOptions (options h) in
  if negb (parsed_enabled opts) then false
  else match error h, data h with
       | None, None => true
       | _, _ => false
       end.

(** *** Record updates *)

Definition withState (st : State V E Args) (h : Hook V E Args) : Hook V E Args :=
  {| args := args h; options := options h; initialArgs := initialArgs h;
     state := st; client := client h; subscription := subscription h |}.

Definition withRegistry (r : Registry.t Args) (c : Client V E Args) : Client V E Args :=
  {| disabled := disabled c; localResults := localResults c; registry := r |}.

Definition withLocalResult (k : string) (r : Result V E) (c : Client V E Args)
  : Client V E Args :=
  {| disabled := disabled c; localResults := <[k := r]> (localResults c);
     registry := registry c |}.

Definition withClient (c : Client V E Args) (sub : option (nat * Args))
  (h : Hook V E Args) : Hook V E Args :=
  {| args := args h; options := options h; initialArgs := initialArgs h;
     state := state h; client := c; subscription := sub |}.

(** *** The effects *)

(** What running the teardown of the subscription effect does to the client:
    the [unsubscribe] returned by [client.onUpdate], or the no-op closure. *)
Definition teardown (h : Hook V E Args) : Registry.t Args :=
  match subscription h with
  | Some (id, _) => Registry.unsubscribe id (registry (client h))
  | None => registry (client h)
  end.

(** The first [$effect]: (teardown of the previous run, then) subscribe with
    the current args when [opts.enabled]. *)
Definition subscribeEffect (h : Hook V E Args) : Hook V E Args :=
  let argsObject := parseArgs (args h) in
  let opts := parseOptions (options h) in
  if parsed_enabled opts then
    let '(r, unsubscribe) := Registry.onUpdate argsObject (teardown h) in
    withClient (withRegistry r (client h)) (Some (unsubscribe, argsObject)) h
  else
    withClient (withRegistry (teardown h) (client h)) None h.

(** The second [$effect]: once args change, move off of [initialData]. *)
Definition initialDataEffect (h : Hook V E Args) : Hook V E Args :=
  let st := state h in
  if negb (state_haveArgsEverChanged st) then
    if negb (bool_decide (argsKey (parseArgs (args h)) = argsKey (initialArgs h))) then
      let opts := parseOptions (options h) in
      match parsed_initialData opts with
      | Some d =>
          withState {| state_result := state_result st;
                       state_lastResult := Value d;
                       state_argsForLastResult := Some (initialArgs h);
                       state_haveArgsEverChanged := true |} h
      | None =>
          withState {| state_result := state_result st;
                       state_lastResult := state_lastResult st;
                       state_argsForLastResult := state_argsForLastResult st;
                       state_haveArgsEverChanged := true |} h
      end
    else h
  else h.

(** *** The callbacks handed to [client.onUpdate] *)

Definition onData (argsObject : Args) (dataFromServer : V) (st : State V E Args)
  : State V E Args :=
  let copy := dataFromServer in
  {| state_result := Value copy;
     state_lastResult := Value copy;
     state_argsForLastResult := Some argsObject;
     state_haveArgsEverChanged := state_haveArgsEverChanged st |}.

Definition onError (argsObject : Args) (e : E) (st : State V E Args)
  : State V E Args :=
  let copy := structuredCloneError e in
  {| state_result := Error e;
     state_lastResult := Error copy;
     state_argsForLastResult := Some argsObject;
     state_haveArgsEverChanged := state_haveArgsEverChanged st |}.

(** *** The hook and what can happen to it *)

(** The body of [useQuery] before any effect has run. *)
Definition setup (c : Client V E Args) (a : OrClosure Args)
  (o : OrClosure (UseQueryOptions V)) : Hook V E Args :=
  {| args := a; options := o; initialArgs := parseArgs a;
     state := {| state_result := ofOption (parsed_initialData (parseOptions o));
                 state_lastResult := Undefined;
                 state_argsForLastResult := None;
                 state_haveArgsEverChanged := false |};
     client := c; subscription := None |}.

(** [useQuery(query, args, options)] once both effects have run. *)
Definition useQuery (c : Client V E Args) (a : OrClosure Args)
  (o : OrClosure (UseQueryOptions V)) : Hook V E Args :=
  initialDataEffect (subscribeEffect (setup c a o)).

Definition setArgs (a : OrClosure Args) (h : Hook V E Args) : Hook V E Args :=
  {| args := a; options := options h; initialArgs := initialArgs h;
     state := state h; client := client h; subscription := subscription h |}.

Definition setOptions (o : OrClosure (UseQueryOptions V)) (h : Hook V E Args)
  : Hook V E Args :=
  {| args := args h; options := o; initialArgs := initialArgs h;
     state := state h; client := client h; subscription := subscription h |}.

Inductive Event : Type :=
| ArgsChanged (a : OrClosure Args)
| OptionsChanged (o : OrClosure (UseQueryOptions V))
| ServerData (dataFromServer : V)
| ServerError (e : E)
| OtherQueryResult (k : string) (r : Result V E)
| Unmounted.

(** The client reports to the current subscription: it records the outcome as
    the local result of the subscribed args and calls the matching callback.
    A disabled client, or a hook without subscription, receives nothing. *)
Definition report (r : Result V E) (cb : Args → State V E Args → State V E Args)
  (h : Hook V E Args) : option (Hook V E Args) :=
  match subscription h with
  | Some (id, argsObject) =>
      if disabled (client h) then None
      else Some (withState (cb argsObject (state h))
                   (withClient (withLocalResult (argsKey argsObject) r (client h))
                      (subscription h) h))
  | None => None
  end.

(** A result for other args reaches the client's table (another subscriber of
    the same client); for the hook's own subscription that is a [report]. *)
Definition otherQueryResult (k : string) (r : Result V E) (h : Hook V E Args)
  : option (Hook V E Args) :=
  match subscription h with
  | Some (_, argsObject) =>
      if bool_decide (argsKey argsObject = k) then None
      else Some (withClient (withLocalResult k r (client h)) (subscription h) h)
  | None => Some (withClient (withLocalResult k r (client h)) (subscription h) h)
  end.

Definition step (h : Hook V E Args) (ev : Event) : option (Hook V E Args) :=
  match ev with
  | ArgsChanged a => Some (initialDataEffect (subscribeEffect (setArgs a h)))
  | OptionsChanged o => Some (initialDataEffect (subscribeEffect (setOptions o h)))
  | ServerData d => report (Value d) (λ argsObject, onData argsObject d) h
  | ServerError e => report (Error e) (λ argsObject, onError argsObject e) h
  | OtherQueryResult k r => otherQueryResult k r h
  | Unmounted => Some (withClient (withRegistry (teardown h) (client h)) None h)
  end.

(** The states a mounted hook can be in. *)
Inductive reachable : Hook V E Args → Prop :=
| reachable_mounted c a o : reachable (useQuery c a o)
| reachable_step h ev h' : reachable h → step h ev = Some h' → reachable h'.

(** Two facts that hold in every reachable state: the subscription's
    callbacks captured the args the hook currently has, and a received result
    is always stored together with its args. *)
Definition subscriptionIsCurrent (h : Hook V E Args) : Prop :=
  ∀ id argsObject, subscription h = Some (id, argsObject) →
    argsObject = parseArgs (args h).

Definition lastResultHasArgs (h : Hook V E Args) : Prop :=
  state_lastResult (state h) ≠ Undefined →
  is_Some (state_argsForLastResult (state h)).

End hook.
End UseQuery.

(** ** [PaginationResult] of [convex/server]: the fields the hook reads *)
Module PaginationResult.

Record t (Item : Type) : Type := Build {
  page : list Item;
  isDone : bool;
  continueCursor : string
}.
Arguments Build {Item} page isDone continueCursor.
Arguments page {Item} _.
Arguments isDone {Item} _.
Arguments continueCursor {Item} _.

#[global] Instance eq_dec {Item : Type} `{EqDecision Item} : EqDecision (t Item).
Proof. solve_decision. Defined.

End PaginationResult.

(** ** [usePaginatedQuery] *)
Module UsePaginatedQuery.

(** [UsePaginatedQueryOptions]. *)
Record UsePaginatedQueryOptions (Item : Type) : Type := {
  initialNumItems : option Z;
  initialData : option (PaginationResult.t Item)
}.
Arguments initialNumItems {Item} _.
Arguments initialData {Item} _.

Inductive UsePaginationQueryStatus : Type :=
| LoadingFirstPage
| CanLoadMore
| LoadingMore
| Exhausted.

(** The args object of a page subscription:
    [{ ...args, paginationOpts: { numItems, cursor } }]. *)
Record Request (Args : Type) : Type := {
  queryArgs : Args;
  numItems : Z;
  cursor : option string
}.
Arguments queryArgs {Args} _.
Arguments numItems {Args} _.
Arguments cursor {Args} _.

(** One [usePaginatedQuery]: its parameters, the [$state] cells, the plain
    variables [subscriptions] and [isFirstRender] of its closure, and the
    client's subscriptions.  [subscriptions] maps a page key to the
    [unsubscribe] closure of a subscription, named by that subscription. *)
Record Hook (Item E Args : Type) : Type := {
  args : OrClosure Args;
  options : UsePaginatedQueryOptions Item;
  nextCursor : option string;
  pages : list (PaginationResult.t Item);
  pagesLoading : gmap string bool;
  isDone : bool;
  error : option E;
  subscriptions : gmap string nat;
  isFirstRender : bool;
  client : Registry.t (Request Args)
}.
Arguments args {Item E Args} _.
Arguments options {Item E Args} _.
Arguments nextCursor {Item E Args} _.
Arguments pages {Item E Args} _.
Arguments pagesLoading {Item E Args} _.
Arguments isDone {Item E Args} _.
Arguments error {Item E Args} _.
Arguments subscriptions {Item E Args} _.
Arguments isFirstRender {Item E Args} _.
Arguments client {Item E Args} _.

Section hook.
Context {Item E Args : Type} `{EqDecision Item}.

Definition parseArgs (a : OrClosure Args) : Args := call a.

(** [const { initialNumItems = 10, initialData } = options]. *)
Definition resolvedNumItems (o : UsePaginatedQueryOptions Item) : Z :=
  match initialNumItems o with
  | Some n => n
  | None => 10%Z
  end.

(** [cursor ?? 'initial']. *)
Definition pageKeyOf (cursor : option string) : string :=
  match cursor with
  | Some c => c
  | None => "initial"
  end.

(** [if (cursor)]: neither [null] nor the empty string. *)
Definition truthyCursor (cursor : option string) : bool :=
  match cursor with
  | Some c => negb (String.eqb c "")
  | None => false
  end.

(** The success callback of the subscription made for [pageKey]. *)
Definition onData (pageKey : string) (dataFromServer : PaginationResult.t Item)
  (h : Hook Item E Args) : Hook Item E Args :=
  let pages' :=
    match list_find (λ page, PaginationResult.continueCursor page
                             = PaginationResult.continueCursor dataFromServer)
                    (pages h) with
    | None => pages h ++ [dataFromServer]
    | Some (pageIndex, existingPage) =>
        if bool_decide (existingPage = dataFromServer) then pages h
        else <[pageIndex := dataFromServer]> (pages h)
    end in
  {| args := args h; options := options h;
     nextCursor := Some (PaginationResult.continueCursor dataFromServer);
     pages := pages';
     pagesLoading := <[pageKey := false]> (pagesLoading h);
     isDone := PaginationResult.isDone dataFromServer;
     error := error h;
     subscriptions := subscriptions h;
     isFirstRender := isFirstRender h;
     client := client h |}.

(** The error callback. *)
Definition onError (e : E) (h : Hook Item E Args) : Hook Item E Args :=
  {| args := args h; options := options h; nextCursor := nextCursor h;
     pages := pages h; pagesLoading := pagesLoading h; isDone := isDone h;
     error := Some e;
     subscriptions := subscriptions h; isFirstRender := isFirstRender h;
     client := client h |}.

Definition subscribeToPage (cursor : option string) (a : Args)
  (h : Hook Item E Args) : Hook Item E Args :=
  let pageKey := pageKeyOf cursor in
  let pagesLoading' :=
    if truthyCursor cursor then <[pageKey := true]> (pagesLoading h)
    else pagesLoading h in
  let '(c, unsubscribe) :=
    Registry.onUpdate
      {| queryArgs := a; numItems := resolvedNumItems (options h); cursor := cursor |}
      (client h) in
  {| args := args h; options := options h; nextCursor := nextCursor h;
     pages := pages h; pagesLoading := pagesLoading'; isDone := isDone h;
     error := error h;
     subscriptions := <[pageKey := unsubscribe]> (subscriptions h);
     isFirstRender := isFirstRender h;
     client := c |}.

(** [subscriptions.forEach(unsubscribe => unsubscribe()); subscriptions.clear()]. *)
Definition clearSubscriptions (h : Hook Item E Args) : Hook Item E Args :=
  {| args := args h; options := options h; nextCursor := nextCursor h;
     pages := pages h; pagesLoading := pagesLoading h; isDone := isDone h;
     error := error h;
     subscriptions := ∅;
     isFirstRender := isFirstRender h;
     client := map_fold (λ _ unsubscribe c, Registry.unsubscribe unsubscribe c)
                 (client h) (subscriptions h) |}.

(** The "Reset state" part of the effect, with [error] and [isFirstRender]. *)
Definition resetState (h : Hook Item E Args) : Hook Item E Args :=
  match isFirstRender h, initialData (options h) with
  | true, Some initialData =>
      {| args := args h; options := options h;
         nextCursor := Some (PaginationResult.continueCursor initialData);
         pages := [initialData];
         pagesLoading := {[ "initial" := false ]};
         isDone := PaginationResult.isDone initialData;
         error := None;
         subscriptions := subscriptions h;
         isFirstRender := false;
         client := client h |}
  | _, _ =>
      {| args := args h; options := options h;
         nextCursor := None;
         pages := [];
         pagesLoading := {[ "initial" := true ]};
         isDone := false;
         error := None;
         subscriptions := subscriptions h;
         isFirstRender := false;
         client := client h |}
  end.

(** The body of the [$effect]. *)
Definition effect (h : Hook Item E Args) : Hook Item E Args :=
  let argsObject := parseArgs (args h) in
  subscribeToPage None argsObject (resetState (clearSubscriptions h)).

(** The function the [$effect] returns: it runs before the effect runs again
    and on unmount. *)
Definition teardown (h : Hook Item E Args) : Hook Item E Args :=
  clearSubscriptions h.

(** The body of [usePaginatedQuery] before the effect has run. *)
Definition setup (c : Registry.t (Request Args)) (a : OrClosure Args)
  (o : UsePaginatedQueryOptions Item) : Hook Item E Args :=
  {| args := a; options := o;
     nextCursor := PaginationResult.continueCursor <$> initialData o;
     pages := match initialData o with
              | Some d => [d]
              | None => []
              end;
     pagesLoading := {[ "initial" := match initialData o with
                                     | Some _ => false
                                     | None => true
                                     end ]};
     isDone := match initialData o with
               | Some d => PaginationResult.isDone d
               | None => false
               end;
     error := None;
     subscriptions := ∅;
     isFirstRender := true;
     client := c |}.

(** [usePaginatedQuery(query, args, options)] once the effect has run. *)
Definition usePaginatedQuery (c : Registry.t (Request Args)) (a : OrClosure Args)
  (o : UsePaginatedQueryOptions Item) : Hook Item E Args :=
  effect (setup c a o).

Definition setArgs (a : OrClosure Args) (h : Hook Item E Args) : Hook Item E Args :=
  {| args := a; options := options h; nextCursor := nextCursor h;
     pages := pages h; pagesLoading := pagesLoading h; isDone := isDone h;
     error := error h; subscriptions := subscriptions h;
     isFirstRender := isFirstRender h; client := client h |}.

(** The effect reacting to new args: teardown of the previous run, then the
    body. *)
Definition argsChanged (a : OrClosure Args) (h : Hook Item E Args)
  : Hook Item E Args :=
  effect (teardown (setArgs a h)).

(** [loadMore]: declared [(numItems: number) => void], written [() => ...]. *)
Definition loadMore (numItems : Z) (h : Hook Item E Args) : Hook Item E Args :=
  subscribeToPage (nextCursor h) (parseArgs (args h)) h.

(** *** The derived values *)

Definition status (h : Hook Item E Args) : UsePaginationQueryStatus :=
  if bool_decide (pagesLoading h !! "initial" = Some true) then LoadingFirstPage
  else if bool_decide (map_Exists (λ _ loading, loading = true) (pagesLoading h))
  then LoadingMore
  else if isDone h then Exhausted
  else CanLoadMore.

Definition results (h : Hook Item E Args) : list Item :=
  concat (PaginationResult.page <$> pages h).

(** *** What can happen to a mounted hook *)

Inductive Event : Type :=
| ArgsChanged (a : OrClosure Args)
| LoadMore (numItems : Z)
| PageData (id : nat) (dataFromServer : PaginationResult.t Item)
| PageError (id : nat) (e : E)
| Unmounted.

(** The client calls back only subscriptions that were not unsubscribed; the
    callback closes over the page key of its subscription. *)
Definition step (h : Hook Item E Args) (ev : Event) : Hook Item E Args :=
  match ev with
  | ArgsChanged a => argsChanged a h
  | LoadMore n => loadMore n h
  | PageData id d =>
      match Registry.live (client h) id with
      | Some req => onData (pageKeyOf (cursor req)) d h
      | None => h
      end
  | PageError id e =>
      match Registry.live (client h) id with
      | Some _ => onError e h
      | None => h
      end
  | Unmounted => teardown h
  end.

Definition run (h : Hook Item E Args) (evs : list Event) : Hook Item E Args :=
  foldl step h evs.

(** The page the hook heard of last, after an event: the page a live
    subscription just delivered; none once the state was reset for new args. *)
Definition delivered (h : Hook Item E Args) (latest : option (PaginationResult.t Item))
  (ev : Event) : option (PaginationResult.t Item) :=
  match ev with
  | ArgsChanged _ => None
  | PageData id d =>
      match Registry.live (client h) id with
      | Some _ => Some d
      | None => latest
      end
  | _ => latest
  end.

Fixpoint latestPage (h : Hook Item E Args) (latest : option (PaginationResult.t Item))
  (evs : list Event) : option (PaginationResult.t Item) :=
  match evs with
  | [] => latest
  | ev :: evs => latestPage (step h ev) (delivered h latest ev) evs
  end.

(** The most recently delivered page of a hook mounted with options [o] after
    the events [evs]; [initialData] counts as delivered at mount. *)
Definition mostRecentPage (c : Registry.t (Request Args)) (a : OrClosure Args)
  (o : UsePaginatedQueryOptions Item) (evs : list Event)
  : option (PaginationResult.t Item) :=
  latestPage (usePaginatedQuery c a o) (initialData o) evs.

(** [isDone] and [nextCursor] are those of the latest page, and as long as
    there is none the initial page is marked loading. *)
Definition followsLatest (h : Hook Item E Args)
  (latest : option (PaginationResult.t Item)) : Prop :=
  isFirstRender h = false
  ∧ match latest with
    | Some d => isDone h = PaginationResult.isDone d
                ∧ nextCursor h = Some (PaginationResult.continueCursor d)
    | None => isDone h = false ∧ nextCursor h = None
              ∧ pagesLoading h !! "initial" = Some true
    end.

(** The stored pages have pairwise different cursors. *)
Definition distinctCursors (h : Hook Item E Args) : Prop :=
  NoDup (PaginationResult.continueCursor <$> pages h).

End hook.
End UsePaginatedQuery.

(** ** A concrete runtime: the values of a small chat application

    Query results are the JavaScript values below (numbers restricted to the
    integral ones), errors are identified by their message, and args objects
    are lists of fields.  [jsonKey] writes an args object with one field
    whose value is a small integer, such as [{ id: 1 }], the way
    [JSON.stringify(convexToJson(args))] does; these are the args of the
    scenes below.  It neither sorts fields nor escapes strings: the
    serialisation of Convex values in general is [ConvexJson.queryKey]. *)
Module Chat.

Inductive JsValue : Type :=
| JsNull
| JsBool (b : bool)
| JsNumber (n : Z)
| JsString (s : string).

(** JavaScript's [ToBoolean]. *)
Definition toBoolean (v : JsValue) : bool :=
  match v with
  | JsNull => false
  | JsBool b => b
  | JsNumber n => negb (n =? 0)%Z
  | JsString s => negb (String.eqb s "")
  end.

Definition quote : string := String (Ascii.ascii_of_nat 34) EmptyString.

Definition jsonValue (v : JsValue) : string :=
  match v with
  | JsNull => "null"
  | JsBool true => "true"
  | JsBool false => "false"
  | JsNumber n => pretty n
  | JsString s => quote +:+ s +:+ quote
  end.

Fixpoint jsonFields (fields : list (string * JsValue)) : string :=
  match fields with
  | [] => ""
  | [(k, v)] => quote +:+ k +:+ quote +:+ ":" +:+ jsonValue v
  | (k, v) :: rest =>
      quote +:+ k +:+ quote +:+ ":" +:+ jsonValue v +:+ "," +:+ jsonFields rest
  end.

Definition jsonKey (a : list (string * JsValue)) : string :=
  "{" +:+ jsonFields a +:+ "}".

#[global] Instance runtime : Runtime JsValue string (list (string * JsValue)) := {
  truthy := toBoolean;
  argsKey := jsonKey;
  structuredCloneError := λ e, e
}.

(** A client that has not seen any query yet. *)
Definition freshClient : UseQuery.Client JsValue string (list (string * JsValue)) :=
  {| UseQuery.disabled := false;
     UseQuery.localResults := ∅;
     UseQuery.registry := Registry.empty |}.

Definition noOptions : UseQuery.UseQueryOptions JsValue :=
  {| UseQuery.initialData := None;
     UseQuery.keepPreviousData := None;
     UseQuery.enabled := None |}.

Definition keepPrevious : UseQuery.UseQueryOptions JsValue :=
  {| UseQuery.initialData := None;
     UseQuery.keepPreviousData := Some true;
     UseQuery.enabled := None |}.

Definition switchedOff : UseQuery.UseQueryOptions JsValue :=
  {| UseQuery.initialData := None;
     UseQuery.keepPreviousData := None;
     UseQuery.enabled := Some (Closure (λ _, false)) |}.

Definition userArgs (id : Z) : list (string * JsValue) := [("id", JsNumber id)].

(** [useQuery] applied to a list of events, as far as they can happen. *)
Definition runQuery (h : UseQuery.Hook JsValue string (list (string * JsValue)))
  (evs : list (UseQuery.Event (V := JsValue) (E := string)
                 (Args := list (string * JsValue))))
  : option (UseQuery.Hook JsValue string (list (string * JsValue))) :=
  foldl (λ acc ev, acc ≫= λ h', UseQuery.step h' ev) (Some h) evs.

(** [useQuery(api.users.get, { id: 1 }, o)] on a fresh client. *)
Definition mounted (o : UseQuery.UseQueryOptions JsValue)
  : UseQuery.Hook JsValue string (list (string * JsValue)) :=
  UseQuery.useQuery freshClient (Given (userArgs 1)) (Given o).

(** The server answers, then the component switches to [{ id: 2 }], for which
    the client has nothing yet. *)
Definition answerThenNewArgs (answer : UseQuery.Event (V := JsValue) (E := string)
                                         (Args := list (string * JsValue)))
  : option (UseQuery.Hook JsValue string (list (string * JsValue))) :=
  runQuery (mounted keepPrevious)
    [answer; UseQuery.ArgsChanged (Given (userArgs 2))].

(** The state that scenario ends in. *)
Definition afterAnswer (answer : UseQuery.Event (V := JsValue) (E := string)
                                   (Args := list (string * JsValue)))
  : UseQuery.Hook JsValue string (list (string * JsValue)) :=
  match answerThenNewArgs answer with
  | Some h => h
  | None => mounted keepPrevious
  end.

(** The message list of the chat: [usePaginatedQuery(api.messages.list,
    { muteWords }, o)] on a client without subscriptions.  Items are message
    bodies. *)
Definition messageList (muteWords : list string)
  (o : UsePaginatedQuery.UsePaginatedQueryOptions string)
  : UsePaginatedQuery.Hook string string (list string) :=
  UsePaginatedQuery.usePaginatedQuery Registry.empty (Given muteWords) o.

Definition pagesOf (n : Z) : UsePaginatedQuery.UsePaginatedQueryOptions string :=
  {| UsePaginatedQuery.initialNumItems := Some n;
     UsePaginatedQuery.initialData := None |}.

Definition defaultPages : UsePaginatedQuery.UsePaginatedQueryOptions string :=
  {| UsePaginatedQuery.initialNumItems := None;
     UsePaginatedQuery.initialData := None |}.

(** The newest two messages, and the same page after a third message was
    sent: it starts one message later and so ends at another cursor. *)
Definition firstPage : PaginationResult.t string :=
  PaginationResult.Build ["second"; "first"] false "after-first".

Definition firstPageLater : PaginationResult.t string :=
  PaginationResult.Build ["third"; "second"] false "after-second".

Definition firstPageEdited : PaginationResult.t string :=
  PaginationResult.Build ["second (edited)"; "first"] false "after-first".

(** The list after its first page arrived. *)
Definition firstPageShown (o : UsePaginatedQuery.UsePaginatedQueryOptions string)
  : UsePaginatedQuery.Hook string string (list string) :=
  UsePaginatedQuery.run (messageList [] o) [UsePaginatedQuery.PageData 0 firstPage].

(** The list when its first page is also the last one. *)
Definition lastPage : PaginationResult.t string :=
  PaginationResult.Build ["only"] true "end".

Definition lastPageShown : UsePaginatedQuery.Hook string string (list string) :=
  UsePaginatedQuery.run (messageList [] defaultPages)
    [UsePaginatedQuery.PageData 0 lastPage].

(** "Load more" while the first page is still loading, then other mute words. *)
Definition loadMoreThenNewArgs
  : UsePaginatedQuery.Hook string string (list string) :=
  UsePaginatedQuery.run (messageList ["spam"] defaultPages)
    [UsePaginatedQuery.LoadMore 50;
     UsePaginatedQuery.ArgsChanged (Given ["ads"])].

(** "Load more" pressed only while [status] is CanLoadMore: the second page
    arrives, the first page is delivered again (which moves [nextCursor] back
    to its cursor), "Load more" is pressed again, then other mute words. *)
Definition secondPage : PaginationResult.t string :=
  PaginationResult.Build ["zeroth"] false "after-zeroth".

Definition loadMoreTwice : list (UsePaginatedQuery.Event (Item := string)
                                  (E := string) (Args := list string)) :=
  [UsePaginatedQuery.LoadMore 50;
   UsePaginatedQuery.PageData 1 secondPage;
   UsePaginatedQuery.PageData 0 firstPageEdited].

End Chat.

(** ** The query key on Convex values: [JSON.stringify(convexToJson(args))]

    The values of [convex/values] that need neither floating point nor
    base64: null, booleans, the numbers that are integers of magnitude below
    2^53 (every one of them is a JavaScript number, and none is written with
    an exponent), strings, arrays and objects.  A string is the sequence of
    its UTF-16 code units, each below 256.  An object is the list of its own
    properties in creation order. *)
Module ConvexJson.
#[local] Set Warnings "-register-all".

Inductive Value : Type :=
| Null
| Boolean (b : bool)
| Number (n : Z)
| Text (s : string)
| Array (items : list Value)
| Object (properties : list (string * Value)).

(** What [convexToJson] returns and [JSON.stringify] prints; the members of
    an object in the order [JSON.stringify] goes through them. *)
Inductive JSONValue : Type :=
| JSONNull
| JSONBoolean (b : bool)
| JSONNumber (n : Z)
| JSONString (s : string)
| JSONArray (items : list JSONValue)
| JSONObject (members : list (string * JSONValue)).

(** The property names of the fragment: a letter followed by letters, digits
    and underscores, at most 64 characters.  [convexToJson] accepts each of
    them ([validateObjectField]), and none is an array index, which
    JavaScript would enumerate before the other properties. *)
Definition isLetter (c : Ascii.ascii) : bool :=
  let n := Ascii.nat_of_ascii c in
  (65 <=? n) && (n <=? 90) || (97 <=? n) && (n <=? 122).

Definition isNameCharacter (c : Ascii.ascii) : bool :=
  let n := Ascii.nat_of_ascii c in
  isLetter c || (48 <=? n) && (n <=? 57) || (n =? 95).

Definition validName (k : string) : bool :=
  match k with
  | EmptyString => false
  | String c rest =>
      isLetter c && forallb isNameCharacter (String.list_ascii_of_string rest)
      && (String.length k <=? 64)
  end.

(** The values of the fragment: numbers in range, and in every object the
    property names valid and pairwise different. *)
Fixpoint valid (value : Value) : bool :=
  match value with
  | Number n => bool_decide (- 2 ^ 53 < n < 2 ^ 53)%Z
  | Array items => forallb valid items
  | Object properties =>
      bool_decide (NoDup properties.*1)
      && forallb (λ property, validName property.1 && valid property.2) properties
  | _ => true
  end.

(** The comparison [entries.sort] of [convexToJson] is given:
    [k1 === k2 ? 0 : k1 < k2 ? -1 : 1], on strings the order of the code
    units. *)
Definition nameBefore {A : Type} : relation (string * A) :=
  λ entry1 entry2, String.leb entry1.1 entry2.1 = true.

#[global] Instance nameBefore_dec {A : Type} (entry1 entry2 : string * A)
  : Decision (nameBefore entry1 entry2) :=
  decide (String.leb entry1.1 entry2.1 = true).

(** [convexToJson]: an object becomes a new object that gets the properties
    in the order of their names.  The source sorts the entries and converts
    the value of each; the values are converted first here, which gives the
    same members since the sort only looks at the names. *)
Fixpoint convexToJson (value : Value) : JSONValue :=
  match value with
  | Null => JSONNull
  | Boolean b => JSONBoolean b
  | Number n => JSONNumber n
  | Text s => JSONString s
  | Array items => JSONArray (convexToJson <$> items)
  | Object properties =>
      JSONObject
        (merge_sort nameBefore
           ((λ property, (property.1, convexToJson property.2)) <$> properties))
  end.

Definition doubleQuote : Ascii.ascii := Ascii.ascii_of_nat 34.
Definition backslash : Ascii.ascii := Ascii.ascii_of_nat 92.

Definition hexDigit (n : nat) : Ascii.ascii :=
  if n <? 10 then Ascii.ascii_of_nat (48 + n) else Ascii.ascii_of_nat (87 + n).

(** [QuoteJSONString] of ECMAScript on one code unit: the quote and the
    backslash get a backslash, the control characters their short escape or
    a lower-case [\u00XX], every other code unit is kept. *)
Definition escaped (c : Ascii.ascii) : string :=
  let n := Ascii.nat_of_ascii c in
  if n =? 34 then String backslash (String doubleQuote "")
  else if n =? 92 then String backslash (String backslash "")
  else if n =? 8 then String backslash "b"
  else if n =? 12 then String backslash "f"
  else if n =? 10 then String backslash "n"
  else if n =? 13 then String backslash "r"
  else if n =? 9 then String backslash "t"
  else if n <? 32 then
    String backslash
      ("u00" +:+ String (hexDigit (n / 16)) (String (hexDigit (n mod 16)) ""))
  else String c "".

Fixpoint escapedAll (s : string) : string :=
  match s with
  | EmptyString => ""
  | String c s => escaped c +:+ escapedAll s
  end.

Definition quoteJSONString (s : string) : string :=
  String doubleQuote (escapedAll s +:+ String doubleQuote "").

Fixpoint commaSeparated (parts : list string) : string :=
  match parts with
  | [] => ""
  | [part] => part
  | part :: parts => part +:+ "," +:+ commaSeparated parts
  end.

(** [JSON.stringify] without indentation. *)
Fixpoint stringify (value : JSONValue) : string :=
  match value with
  | JSONNull => "null"
  | JSONBoolean true => "true"
  | JSONBoolean false => "false"
  | JSONNumber n => pretty n
  | JSONString s => quoteJSONString s
  | JSONArray items => "[" +:+ commaSeparated (stringify <$> items) +:+ "]"
  | JSONObject members =>
      "{" +:+ commaSeparated
                ((λ member, quoteJSONString member.1 +:+ ":" +:+ stringify member.2)
                   <$> members)
      +:+ "}"
  end.

(** An args object: which JavaScript object it is (two objects are [===]
    only when they are the same object) and its properties.  The snapshot
    [parseArgs] takes is another object with the same properties; the hook
    reads an args object only through [convexToJson]. *)
Record Args : Type := {
  identity : nat;
  properties : list (string * Value);
  inFragment : valid (Object properties) = true
}.

Definition queryKey (a : Args) : string :=
  stringify (convexToJson (Object (properties a))).

(** JavaScript's [ToBoolean]. *)
Definition toBoolean (value : Value) : bool :=
  match value with
  | Null => false
  | Boolean b => b
  | Number n => negb (n =? 0)%Z
  | Text s => negb (String.eqb s "")
  | Array _ | Object _ => true
  end.

(** Query results are Convex values, errors are identified by their
    message. *)
#[global] Instance runtime : Runtime Value string Args := {
  truthy := toBoolean;
  argsKey := queryKey;
  structuredCloneError := λ e, e
}.

End ConvexJson.

(** ** Histories of a [useQuery] hook *)
Module QueryHistory.
Section history.
Context {V E Args : Type} `{!Runtime V E Args}.

(** The events one after the other, as far as they can happen. *)
Fixpoint run (h : UseQuery.Hook V E Args)
  (evs : list (UseQuery.Event (V := V) (E := E) (Args := Args)))
  : option (UseQuery.Hook V E Args) :=
  match evs with
  | [] => Some h
  | ev :: evs =>
      match UseQuery.step h ev with
      | Some h' => run h' evs
      | None => None
      end
  end.

(** A registry names only subscriptions it has handed out. *)
Definition wellFormed {Req : Type} (r : Registry.t Req) : Prop :=
  ∀ id, id ∈ Registry.cancelled r → id < length (Registry.calls r).

(** Of the subscriptions made since the registry had [base] entries, the one
    the hook holds is the only one not yet unsubscribed. *)
Definition holdsItsSubscription (base : nat) (h : UseQuery.Hook V E Args) : Prop :=
  wellFormed (UseQuery.registry (UseQuery.client h))
  ∧ base ≤ length (Registry.calls (UseQuery.registry (UseQuery.client h)))
  ∧ (∀ id a, UseQuery.subscription h = Some (id, a) →
       base ≤ id
       ∧ Registry.live (UseQuery.registry (UseQuery.client h)) id = Some a)
  ∧ (∀ id a, base ≤ id →
       Registry.live (UseQuery.registry (UseQuery.client h)) id = Some a →
       UseQuery.subscription h = Some (id, a))
  ∧ (UseQuery.parsed_enabled (UseQuery.parseOptions (UseQuery.options h)) = false →
     UseQuery.subscription h = None).

End history.
End QueryHistory.

(** ** [syncResult] as Svelte keeps it

    A [$derived] is computed when it is first read, and again only after a
    signal that its last computation read has changed.  [syncResult] reads
    the options, [state.haveArgsEverChanged] when [initialData] is truthy,
    and then either returns [state.result] or goes on to read the args and
    [state.result] for the client's local result; the client's table is no
    signal.  [UseQuery.syncResult] is what a computation yields.  Here a hook
    is paired with the value [syncResult] holds, for a component that reads
    the hook when it is mounted and after every event. *)
Module Memo.

(** The values that are no objects: [===] compares them by value, and a
    [$state] cell keeps them as they are (an object is wrapped in a new proxy
    on every assignment). *)
Class Primitive (V : Type) : Type := primitive : V → bool.

Record t (V E Args : Type) : Type := {
  hook : UseQuery.Hook V E Args;
  syncResult : UseQuery.Result V E
}.
Arguments hook {V E Args} _.
Arguments syncResult {V E Args} _.

Section memo.
Context {V E Args : Type} `{!Runtime V E Args} `{!Primitive V} `{EqDecision V}.

(** Whether [state.result = assigned] changes the signal of the cell, which
    holds [held]: not when both are [===].  The value assigned is the
    structured clone of what the server sent, or the [Error] the client made
    for this report. *)
Definition changesCell (held assigned : UseQuery.Result V E) : bool :=
  match held, assigned with
  | UseQuery.Undefined, UseQuery.Undefined => false
  | UseQuery.Value v, UseQuery.Value w => negb (primitive w && bool_decide (v = w))
  | _, _ => true
  end.

(** The branch [syncResult] takes: [opts.initialData && !state.haveArgsEverChanged]. *)
Definition returnsStateResult (h : UseQuery.Hook V E Args) : bool :=
  UseQuery.truthyOption
    (UseQuery.parsed_initialData (UseQuery.parseOptions (UseQuery.options h)))
  && negb (UseQuery.state_haveArgsEverChanged (UseQuery.state h)).

(** Whether the event, taking the hook from [h] to [h'], changed a signal
    that the last computation of [syncResult] read: new args when it read the
    args or when the second effect now sets [haveArgsEverChanged]; new
    options; an assignment that changes [state.result]. *)
Definition invalidates (h h' : UseQuery.Hook V E Args)
  (ev : UseQuery.Event (V := V) (E := E) (Args := Args)) : bool :=
  match ev with
  | UseQuery.ArgsChanged _ =>
      negb (returnsStateResult h)
      || UseQuery.state_haveArgsEverChanged (UseQuery.state h')
  | UseQuery.OptionsChanged _ => true
  | UseQuery.ServerData dataFromServer =>
      changesCell (UseQuery.state_result (UseQuery.state h))
        (UseQuery.Value dataFromServer)
  | UseQuery.ServerError e =>
      changesCell (UseQuery.state_result (UseQuery.state h)) (UseQuery.Error e)
  | UseQuery.OtherQueryResult _ _ => false
  | UseQuery.Unmounted => false
  end.

Definition step (m : t V E Args)
  (ev : UseQuery.Event (V := V) (E := E) (Args := Args)) : option (t V E Args) :=
  match UseQuery.step (hook m) ev with
  | Some h' =>
      Some {| hook := h';
              syncResult := if invalidates (hook m) h' ev
                            then UseQuery.syncResult h'
                            else syncResult m |}
  | None => None
  end.

(** The mounted hook, read for the first time. *)
Definition useQuery (c : UseQuery.Client V E Args) (a : OrClosure Args)
  (o : OrClosure (UseQuery.UseQueryOptions V)) : t V E Args :=
  {| hook := UseQuery.useQuery c a o;
     syncResult := UseQuery.syncResult (UseQuery.useQuery c a o) |}.

Fixpoint run (m : t V E Args)
  (evs : list (UseQuery.Event (V := V) (E := E) (Args := Args)))
  : option (t V E Args) :=
  match evs with
  | [] => Some m
  | ev :: evs =>
      match step m ev with
      | Some m' => run m' evs
      | None => None
      end
  end.

Inductive reachable : t V E Args → Prop :=
| reachable_mounted c a o : reachable (useQuery c a o)
| reachable_step m ev m' : reachable m → step m ev = Some m' → reachable m'.

(** *** What the returned object shows: the derived values that read
    [syncResult], and the getters *)

Definition result (m : t V E Args) : UseQuery.Result V E :=
  match syncResult m with
  | UseQuery.Undefined =>
      if UseQuery.staleAllowed (hook m)
      then UseQuery.state_lastResult (UseQuery.state (hook m))
      else UseQuery.Undefined
  | r => r
  end.

Definition isStale (m : t V E Args) : bool :=
  UseQuery.isUndefined (syncResult m) && UseQuery.staleAllowed (hook m)
  && negb (UseQuery.sameArgsAsLastResult (hook m))
  && negb (UseQuery.isUndefined (result m)).

Definition data (m : t V E Args) : option V :=
  match result m with
  | UseQuery.Value v => Some v
  | _ => None
  end.

Definition error (m : t V E Args) : option E :=
  match result m with
  | UseQuery.Error e => Some e
  | _ => None
  end.

Definition isLoading (m : t V E Args) : bool :=
  let opts := UseQuery.parseOptions (UseQuery.options (hook m)) in
  if negb (UseQuery.parsed_enabled opts) then false
  else match error m, data m with
       | None, None => true
       | _, _ => false
       end.

(** [syncResult] holds what a computation would yield now. *)
Definition upToDate (m : t V E Args) : Prop :=
  syncResult m = UseQuery.syncResult (hook m).

End memo.
End Memo.

(** ** Histories of a [usePaginatedQuery] hook *)
Module PageHistory.
Section history.
Context {Item E Args : Type} `{EqDecision Item}.

(** No [loadMore] of the history stores its subscription under a page key
    that already holds one. *)
Fixpoint neverReplaces (h : UsePaginatedQuery.Hook Item E Args)
  (evs : list (UsePaginatedQuery.Event (Item := Item) (E := E) (Args := Args)))
  : Prop :=
  match evs with
  | [] => True
  | ev :: evs =>
      match ev with
      | UsePaginatedQuery.LoadMore _ =>
          UsePaginatedQuery.subscriptions h
            !! UsePaginatedQuery.pageKeyOf (UsePaginatedQuery.nextCursor h) = None
      | _ => True
      end
      ∧ neverReplaces (UsePaginatedQuery.step h ev) evs
  end.

(** Every subscription made since the registry had [base] entries and not
    yet unsubscribed is stored in [subscriptions]. *)
Definition tracksItsSubscriptions (base : nat)
  (h : UsePaginatedQuery.Hook Item E Args) : Prop :=
  ∀ id, base ≤ id →
    id < length (Registry.calls (UsePaginatedQuery.client h)) →
    id ∉ Registry.cancelled (UsePaginatedQuery.client h) →
    ∃ pageKey, UsePaginatedQuery.subscriptions h !! pageKey = Some id.

(** [nextCursor] is null exactly as long as no page is stored, and otherwise
    the cursor of a stored page. *)
Definition cursorOfStoredPage (h : UsePaginatedQuery.Hook Item E Args) : Prop :=
  (UsePaginatedQuery.nextCursor h = None ↔ UsePaginatedQuery.pages h = [])
  ∧ ∀ cur, UsePaginatedQuery.nextCursor h = Some cur →
      ∃ page, page ∈ UsePaginatedQuery.pages h
              ∧ PaginationResult.continueCursor page = cur.

(** The page a subscription delivered last, after the events [evs] of a hook
    mounted with options [o]; none as long as no subscription has delivered
    one since the state was last reset.  [initialData] is no delivery. *)
Definition lastDelivered (c : Registry.t (UsePaginatedQuery.Request Args))
  (a : OrClosure Args) (o : UsePaginatedQuery.UsePaginatedQueryOptions Item)
  (evs : list (UsePaginatedQuery.Event (Item := Item) (E := E) (Args := Args)))
  : option (PaginationResult.t Item) :=
  UsePaginatedQuery.latestPage (UsePaginatedQuery.usePaginatedQuery c a o) None evs.

Definition isArgsChanged
  (ev : UsePaginatedQuery.Event (Item := Item) (E := E) (Args := Args)) : bool :=
  match ev with
  | UsePaginatedQuery.ArgsChanged _ => true
  | _ => false
  end.

Definition isPageData
  (ev : UsePaginatedQuery.Event (Item := Item) (E := E) (Args := Args)) : bool :=
  match ev with
  | UsePaginatedQuery.PageData _ _ => true
  | _ => false
  end.

Definition isPageError
  (ev : UsePaginatedQuery.Event (Item := Item) (E := E) (Args := Args)) : bool :=
  match ev with
  | UsePaginatedQuery.PageError _ _ => true
  | _ => false
  end.

End history.
End PageHistory.

(** ** [setupConvex] and the Svelte context *)
Module Setup.

Definition _contextKey : string := "$$_convexClient".

(** What a caller can pass as [url]: a string, or anything else. *)
Inductive UrlArgument : Type :=
| NotAString
| UrlString (s : string).

(** The [options] argument of [setupConvex]: its [disabled] property -- not
    there, or there with the value [undefined] or a boolean -- and the other
    properties. *)
Record ConvexClientOptions (O : Type) : Type := {
  disabledOption : option (option bool);
  otherOptions : O
}.
Arguments disabledOption {O} _.
Arguments otherOptions {O} _.

(** [optionsWithDefaults], the object the constructor gets: [disabled] is
    always a property of it, [undefined] or a boolean. *)
Record OptionsWithDefaults (O : Type) : Type := {
  disabled : option bool;
  others : O
}.
Arguments disabled {O} _.
Arguments others {O} _.

Definition noClientMessage : string :=
  "No ConvexClient was found in Svelte context. Did you forget to call setupConvex() in a parent component?".

Definition urlMessage : string := "Expected string url property for setupConvex".

Section setup.
Context {O ConvexClient : Type}.

(** [new ConvexClient(url, optionsWithDefaults)] of [convex/browser]: the
    client, or the message of the [Error] the constructor throws (it does on
    an address it does not accept). *)
Variable newConvexClient : string → OptionsWithDefaults O → string + ConvexClient.

(** [getContext(_contextKey)], throwing when there is none. *)
Definition useConvexClient (context : gmap string ConvexClient)
  : string + ConvexClient :=
  match context !! _contextKey with
  | Some client => inr client
  | None => inl noClientMessage
  end.

Definition setConvexClientContext (client : ConvexClient)
  (context : gmap string ConvexClient) : gmap string ConvexClient :=
  <[_contextKey := client]> context.

(** [!url || typeof url !== 'string']. *)
Definition rejectedUrl (url : UrlArgument) : bool :=
  match url with
  | NotAString => true
  | UrlString s => String.eqb s ""
  end.

(** [{ disabled: !BROWSER, ...options }]: a [disabled] property of [options]
    takes the place of the default, also when its value is [undefined]. *)
Definition optionsWithDefaults (BROWSER : bool) (options : ConvexClientOptions O)
  : OptionsWithDefaults O :=
  {| disabled := match disabledOption options with
                 | Some given => given
                 | None => Some (negb BROWSER)
                 end;
     others := otherOptions options |}.

(** [setupConvex(url, options)] in a component with context [context];
    [BROWSER] is the flag of [esm-env].  An [Error] of the constructor leaves
    the function before the context is set.  (The effect that closes the
    client when the component is destroyed is left out.) *)
Definition setupConvex (BROWSER : bool) (url : UrlArgument)
  (options : ConvexClientOptions O) (context : gmap string ConvexClient)
  : string + gmap string ConvexClient :=
  if rejectedUrl url then inl urlMessage
  else match url with
       | NotAString => inl urlMessage
       | UrlString s =>
           match newConvexClient s (optionsWithDefaults BROWSER options) with
           | inl message => inl message
           | inr client => inr (setConvexClientContext client context)
           end
       end.

End setup.
End Setup.

(** ** The demo backend: [list] and [seed] of the messages module *)
Module Messages.

Record Message : Type := {
  author : string;
  body : string
}.

Section list.
(** [body.toLowerCase().includes(word.toLowerCase())]. *)
Variable includesIgnoringCase : string → string → bool.

Definition muted (muteWords : list string) (message : Message) : bool :=
  existsb (λ word, includesIgnoringCase (body message) word) muteWords.

(** The handler of the query [list] (a name Rocq has taken), on the page
    [paginate] returned; [muteWords] is optional and defaults to the empty
    list. *)
Definition listHandler (results : PaginationResult.t Message)
  (muteWords : option (list string)) : PaginationResult.t Message :=
  let muteWords := match muteWords with
                   | Some words => words
                   | None => []
                   end in
  if (0 <? length muteWords)%nat then
    PaginationResult.Build
      (filter (λ message, muted muteWords message = false)
         (PaginationResult.page results))
      (PaginationResult.isDone results)
      (PaginationResult.continueCursor results)
  else results.

End list.

(** The sizes of the batches the loop of [seed] inserts, from position [i]:
    [for (let i = 0; i < totalMessages; i += batchSize)] with
    [currentBatchSize = Math.min(batchSize, totalMessages - i)]. *)
Fixpoint batchSizes (fuel : nat) (i totalMessages : Z) : list Z :=
  match fuel with
  | O => []
  | S fuel =>
      if (i <? totalMessages)%Z then
        Z.min 5 (totalMessages - i) :: batchSizes fuel (i + 5) totalMessages
      else []
  end.

(** [seed] on a table of [existing] messages: nothing at 10000 or more,
    otherwise the batches up to 200 messages. *)
Definition seed (existing : Z) : option (list Z) :=
  if (10000 <=? existing)%Z then None
  else let totalMessages := (200 - existing)%Z in
       Some (batchSizes (Z.to_nat totalMessages) 0 totalMessages).

Definition inserted (sizes : list Z) : Z := foldr Z.add 0%Z sizes.

End Messages.

(** ** The chat page: what its template shows for a hook state *)
Module ChatPage.

Inductive Footer : Type :=
| LoadMoreButton
| LoadingButton
| NoMoreMessages
| NoFooter.

Inductive View (Item : Type) : Type :=
| Loading
| FailedToLoad
| MessageList (items : list Item) (footer : Footer).
Arguments Loading {Item}.
Arguments FailedToLoad {Item}.
Arguments MessageList {Item} _ _.

Section page.
Context {Item E Args : Type} `{EqDecision Item}.

Definition footer (h : UsePaginatedQuery.Hook Item E Args) : Footer :=
  match UsePaginatedQuery.status h with
  | UsePaginatedQuery.CanLoadMore => LoadMoreButton
  | UsePaginatedQuery.LoadingMore => LoadingButton
  | UsePaginatedQuery.Exhausted =>
      if (0 <? length (UsePaginatedQuery.results h))%nat then NoMoreMessages
      else NoFooter
  | UsePaginatedQuery.LoadingFirstPage => NoFooter
  end.

(** The [{#if}] chain of the template; [results] is an array, so the third
    test always passes. *)
Definition view (h : UsePaginatedQuery.Hook Item E Args) : View Item :=
  match UsePaginatedQuery.status h with
  | UsePaginatedQuery.LoadingFirstPage => Loading
  | _ =>
      match UsePaginatedQuery.error h with
      | Some _ => FailedToLoad
      | None => MessageList (UsePaginatedQuery.results h) (footer h)
      end
  end.

(** The "Load More" button calls [loadMore(50)]; it exists only in the
    message list with that footer. *)
Definition pressLoadMore (h : UsePaginatedQuery.Hook Item E Args)
  : option (UsePaginatedQuery.Hook Item E Args) :=
  match view h with
  | MessageList _ LoadMoreButton => Some (UsePaginatedQuery.loadMore 50 h)
  | _ => None
  end.

End page.
End ChatPage.

(** ** More scenes of the chat application *)
Module Scenes.

(** [{ initialData: 7 }], with and without [keepPreviousData], and
    [{ initialData: null }]. *)
Definition hydrated : UseQuery.UseQueryOptions Chat.JsValue :=
  {| UseQuery.initialData := Some (Chat.JsNumber 7);
     UseQuery.keepPreviousData := None;
     UseQuery.enabled := None |}.

Definition hydratedKeeping : UseQuery.UseQueryOptions Chat.JsValue :=
  {| UseQuery.initialData := Some (Chat.JsNumber 7);
     UseQuery.keepPreviousData := Some true;
     UseQuery.enabled := None |}.

Definition hydratedWithNull : UseQuery.UseQueryOptions Chat.JsValue :=
  {| UseQuery.initialData := Some Chat.JsNull;
     UseQuery.keepPreviousData := None;
     UseQuery.enabled := None |}.

(** The client during server-side rendering. *)
Definition serverClient
  : UseQuery.Client Chat.JsValue string (list (string * Chat.JsValue)) :=
  {| UseQuery.disabled := true;
     UseQuery.localResults := ∅;
     UseQuery.registry := Registry.empty |}.

(** Hydrated with 7, the server answers 8. *)
Definition hydratedThenAnswered
  : UseQuery.Hook Chat.JsValue string (list (string * Chat.JsValue)) :=
  match UseQuery.step
          (UseQuery.useQuery Chat.freshClient (Given (Chat.userArgs 1))
             (Given hydratedKeeping))
          (UseQuery.ServerData (Chat.JsNumber 8)) with
  | Some h => h
  | None => Chat.mounted hydratedKeeping
  end.

(** The answer 5 for [{ id: 1 }], then on to [{ id: 2 }]. *)
Definition answeredThenOn
  : list (UseQuery.Event (V := Chat.JsValue) (E := string)
            (Args := list (string * Chat.JsValue))) :=
  [UseQuery.ServerData (Chat.JsNumber 5);
   UseQuery.ArgsChanged (Given (Chat.userArgs 2))].

Definition onSecondUser
  : UseQuery.Hook Chat.JsValue string (list (string * Chat.JsValue)) :=
  match QueryHistory.run (Chat.mounted Chat.noOptions) answeredThenOn with
  | Some h => h
  | None => Chat.mounted Chat.noOptions
  end.

#[global] Instance jsValue_eq_dec : EqDecision Chat.JsValue.
Proof. solve_decision. Defined.

(** Every value of the chat is a primitive. *)
#[global] Instance jsValue_primitive : Memo.Primitive Chat.JsValue := λ _, true.

(** The hook of [Chat.mounted], read by the page. *)
Definition shown (o : UseQuery.UseQueryOptions Chat.JsValue)
  : Memo.t Chat.JsValue string (list (string * Chat.JsValue)) :=
  Memo.useQuery Chat.freshClient (Given (Chat.userArgs 1)) (Given o).

(** The answer 5 for [{ id: 1 }] was shown, and the page is on [{ id: 2 }]. *)
Definition secondUserShown
  : Memo.t Chat.JsValue string (list (string * Chat.JsValue)) :=
  match Memo.run (shown Chat.noOptions) answeredThenOn with
  | Some m => m
  | None => shown Chat.noOptions
  end.

(** Hydrated with 7, the server answered 8, and the page is on [{ id: 2 }]. *)
Definition hydratedMovedOn
  : Memo.t Chat.JsValue string (list (string * Chat.JsValue)) :=
  match Memo.run (shown hydratedKeeping)
          [UseQuery.ServerData (Chat.JsNumber 8);
           UseQuery.ArgsChanged (Given (Chat.userArgs 2))] with
  | Some m => m
  | None => shown hydratedKeeping
  end.

(** The message list hydrated with the first page. *)
Definition hydratedList : UsePaginatedQuery.UsePaginatedQueryOptions string :=
  {| UsePaginatedQuery.initialNumItems := Some 50%Z;
     UsePaginatedQuery.initialData := Some Chat.firstPage |}.

(** The message list hydrated with a page that is also the last one. *)
Definition hydratedExhausted : UsePaginatedQuery.UsePaginatedQueryOptions string :=
  {| UsePaginatedQuery.initialNumItems := Some 50%Z;
     UsePaginatedQuery.initialData := Some Chat.lastPage |}.

(** The first page arrives, "Load More" is pressed, the second page arrives. *)
Definition twoPages
  : list (UsePaginatedQuery.Event (Item := string) (E := string)
            (Args := list string)) :=
  [UsePaginatedQuery.PageData 0 Chat.firstPage;
   UsePaginatedQuery.LoadMore 50;
   UsePaginatedQuery.PageData 1 Chat.secondPage].

(** The first load fails, and "load more" is called all the same. *)
Definition failedFirstLoad
  : list (UsePaginatedQuery.Event (Item := string) (E := string)
            (Args := list string)) :=
  [UsePaginatedQuery.PageError 0 "boom"; UsePaginatedQuery.LoadMore 50].

(** [useQuery(api.messages.count, { user: 7, channel: 'general' })] with
    [keepPreviousData]: the server answers 12, then the component renders
    again with another args object that has the same properties, written in
    the other order. *)
Definition channelArgs : ConvexJson.Args :=
  {| ConvexJson.identity := 1;
     ConvexJson.properties :=
       [("user", ConvexJson.Number 7); ("channel", ConvexJson.Text "general")];
     ConvexJson.inFragment := eq_refl |}.

Definition channelArgsAgain : ConvexJson.Args :=
  {| ConvexJson.identity := 2;
     ConvexJson.properties :=
       [("channel", ConvexJson.Text "general"); ("user", ConvexJson.Number 7)];
     ConvexJson.inFragment := eq_refl |}.

Definition otherChannelArgs : ConvexJson.Args :=
  {| ConvexJson.identity := 3;
     ConvexJson.properties :=
       [("user", ConvexJson.Number 7); ("channel", ConvexJson.Text "random")];
     ConvexJson.inFragment := eq_refl |}.

Definition channelCountMounted
  : UseQuery.Hook ConvexJson.Value string ConvexJson.Args :=
  UseQuery.useQuery
    {| UseQuery.disabled := false;
       UseQuery.localResults := ∅;
       UseQuery.registry := Registry.empty |}
    (Given channelArgs)
    (Given {| UseQuery.initialData := None;
              UseQuery.keepPreviousData := Some true;
              UseQuery.enabled := None |}).

Definition channelCount (next : ConvexJson.Args)
  : UseQuery.Hook ConvexJson.Value string ConvexJson.Args :=
  match QueryHistory.run channelCountMounted
          [UseQuery.ServerData (ConvexJson.Number 12);
           UseQuery.ArgsChanged (Given next)] with
  | Some h => h
  | None => channelCountMounted
  end.

(** [{ a: 'x","b":"y' }] and [{ a: 'x', b: 'y' }]. *)
Definition oneTrickyProperty : ConvexJson.Args :=
  {| ConvexJson.identity := 4;
     ConvexJson.properties :=
       [("a", ConvexJson.Text ("x" +:+ Chat.quote +:+ "," +:+ Chat.quote +:+ "b"
                               +:+ Chat.quote +:+ ":" +:+ Chat.quote +:+ "y"))];
     ConvexJson.inFragment := eq_refl |}.

Definition twoPlainProperties : ConvexJson.Args :=
  {| ConvexJson.identity := 5;
     ConvexJson.properties :=
       [("a", ConvexJson.Text "x"); ("b", ConvexJson.Text "y")];
     ConvexJson.inFragment := eq_refl |}.

(** A result arrived for the first of them, and the args are now the
    second. *)
Definition trickyThenPlain
  : UseQuery.Hook ConvexJson.Value string ConvexJson.Args :=
  match QueryHistory.run
          (UseQuery.useQuery
             {| UseQuery.disabled := false;
                UseQuery.localResults := ∅;
                UseQuery.registry := Registry.empty |}
             (Given oneTrickyProperty)
             (Given {| UseQuery.initialData := None;
                       UseQuery.keepPreviousData := Some true;
                       UseQuery.enabled := None |}))
          [UseQuery.ServerData (ConvexJson.Number 12);
           UseQuery.ArgsChanged (Given twoPlainProperties)] with
  | Some h => h
  | None => channelCountMounted
  end.

Definition deployment : string := "https://chat.convex.cloud".

(** [setupConvex(url)], and [setupConvex(url, { disabled: undefined })]. *)
Definition noClientOptions : Setup.ConvexClientOptions unit :=
  {| Setup.disabledOption := None; Setup.otherOptions := tt |}.

Definition disabledUndefined : Setup.ConvexClientOptions unit :=
  {| Setup.disabledOption := Some None; Setup.otherOptions := tt |}.

(** A constructor that accepts every address and keeps what it was given,
    and one that accepts none. *)
Definition recordingClient (address : string)
  (options : Setup.OptionsWithDefaults unit)
  : string + (string * Setup.OptionsWithDefaults unit) :=
  inr (address, options).

Definition refusingClient (address : string)
  (options : Setup.OptionsWithDefaults unit)
  : string + (string * Setup.OptionsWithDefaults unit) :=
  inl "Invalid deployment address".

End Scenes.

(** * Properties of [useQuery] *)
Section useQuery_facts.
Import UseQuery.
Context {V E Args : Type} `{!Runtime V E Args}.
Implicit Types (h : Hook V E Args) (st : State V E Args).

Lemma initialDataEffect_frame h :
  args (initialDataEffect h) = args h
  ∧ options (initialDataEffect h) = options h
  ∧ client (initialDataEffect h) = client h
  ∧ subscription (initialDataEffect h) = subscription h
  ∧ state_result (state (initialDataEffect h)) = state_result (state h).
Proof.
  unfold initialDataEffect. repeat case_match; done.
Qed.

Lemma subscribeEffect_frame h :
  args (subscribeEffect h) = args h
  ∧ options (subscribeEffect h) = options h
  ∧ state (subscribeEffect h) = state h
  ∧ disabled (client (subscribeEffect h)) = disabled (client h)
  ∧ localResults (client (subscribeEffect h)) = localResults (client h).
Proof.
  unfold subscribeEffect. repeat case_match; done.
Qed.

Lemma subscribeEffect_current h : subscriptionIsCurrent (subscribeEffect h).
Proof.
  intros id a. unfold subscribeEffect.
  case_match; simpl; [|done].
  by intros [= _ <-].
Qed.

Lemma initialDataEffect_current h :
  subscriptionIsCurrent h → subscriptionIsCurrent (initialDataEffect h).
Proof.
  intros Hh id a. destruct (initialDataEffect_frame h) as (-> & _ & _ & -> & _).
  apply Hh.
Qed.

Lemma initialDataEffect_lastResult h :
  lastResultHasArgs h → lastResultHasArgs (initialDataEffect h).
Proof.
  unfold lastResultHasArgs, initialDataEffect.
  repeat case_match; simpl; eauto.
Qed.

Lemma subscribeEffect_lastResult h :
  lastResultHasArgs h → lastResultHasArgs (subscribeEffect h).
Proof.
  unfold lastResultHasArgs.
  by destruct (subscribeEffect_frame h) as (_ & _ & -> & _).
Qed.

Lemma report_inv r cb h h' :
  report r cb h = Some h' →
  ∃ id argsObject,
    subscription h = Some (id, argsObject)
    ∧ disabled (client h) = false
    ∧ h' = withState (cb argsObject (state h))
             (withClient (withLocalResult (argsKey argsObject) r (client h))
                (subscription h) h).
Proof.
  unfold report. destruct (subscription h) as [[id a]|]; [|done].
  destruct (disabled (client h)); [done|].
  intros [= <-]. eauto.
Qed.

(** Every reachable state has a subscription for the current args (if any)
    and stores received results with their args. *)
Lemma reachable_invariant h :
  reachable h → subscriptionIsCurrent h ∧ lastResultHasArgs h.
Proof.
  induction 1 as [c a o|h ev h' _ [IHc IHl] Hstep].
  - split.
    + apply initialDataEffect_current, subscribeEffect_current.
    + apply initialDataEffect_lastResult, subscribeEffect_lastResult. by intros [].
  - destruct ev as [a|o|d|e|k r|]; simpl in Hstep.
    + injection Hstep as <-. split.
      * apply initialDataEffect_current, subscribeEffect_current.
      * by apply initialDataEffect_lastResult, subscribeEffect_lastResult.
    + injection Hstep as <-. split.
      * apply initialDataEffect_current, subscribeEffect_current.
      * by apply initialDataEffect_lastResult, subscribeEffect_lastResult.
    + apply report_inv in Hstep as (id & a & Hsub & _ & ->). split.
      * intros id' a'. simpl. apply IHc.
      * intros _. simpl. eauto.
    + apply report_inv in Hstep as (id & a & Hsub & _ & ->). split.
      * intros id' a'. simpl. apply IHc.
      * intros _. simpl. eauto.
    + unfold otherQueryResult in Hstep.
      destruct (subscription h) as [[id a]|] eqn:Hsub.
      * case_bool_decide; [done|]. injection Hstep as <-. split.
        -- intros id' a'. simpl. intros [= <- <-]. by eapply IHc.
        -- exact IHl.
      * injection Hstep as <-. split; [|exact IHl].
        by intros id' a'.
    + injection Hstep as <-. split; [done|exact IHl].
Qed.

Lemma report_error_result e h h' :
  subscriptionIsCurrent h →
  report (Error e) (λ argsObject, onError argsObject e) h = Some h' →
  result h' = Error e.
Proof.
  intros Hcur (id & a & Hsub & Hdis & ->)%report_inv.
  pose proof (Hcur _ _ Hsub) as ->.
  unfold result, syncResult, localQueryResult. simpl.
  rewrite Hdis, lookup_insert_eq.
  by destruct (truthyOption _ && negb _).
Qed.

(** C8: in every state of the object [useQuery] returns, [data] and [error]
    are never both defined; [error] is defined exactly when the current result
    is an [Error], and [data] exactly when the current result is defined and
    not an [Error]. *)
Theorem useQuery_data_error_exclusive h :
  ¬ (is_Some (data h) ∧ is_Some (error h))
  ∧ (is_Some (error h) ↔ ∃ e, result h = Error e)
  ∧ (is_Some (data h) ↔ result h ≠ Undefined ∧ ∀ e, result h ≠ Error e).
Proof.
  unfold data, error, is_Some.
  destruct (result h) as [|v|e]; (split; [|split]); try split;
    try (by intros [[? [=]] _]); try (by intros [_ [? [=]]]);
    try (by intros [? [=]]); try (by intros [[] _]); eauto.
  intros [_ He]. by destruct (He e).
Qed.

(** The key comparison depends on the two args objects only through their
    serialisation. *)
Lemma sameArgsAsLastResult_keys h a :
  state_argsForLastResult (state h) = Some a →
  sameArgsAsLastResult h = bool_decide (argsKey a = argsKey (parseArgs (args h))).
Proof. intros Ha. unfold sameArgsAsLastResult. by rewrite Ha. Qed.

(** Right after a result arrived for the current subscription the key of the
    last result is the key of the current args. *)
Lemma useQuery_same_args_after_data h d h' :
  reachable h → step h (ServerData d) = Some h' → sameArgsAsLastResult h' = true.
Proof.
  intros [Hcur _]%reachable_invariant (id & a & Hsub & _ & ->)%report_inv.
  unfold sameArgsAsLastResult. simpl.
  apply bool_decide_eq_true. by rewrite (Hcur _ _ Hsub).
Qed.

(** C3: when the client reports an [Error] to the current subscription, the
    [error] getter returns that error, [data] is undefined and [isLoading] is
    false; and in any state whose current result is not an [Error], [error]
    is undefined. *)
Theorem useQuery_error_forwarded h e h' :
  reachable h →
  step h (ServerError e) = Some h' →
  (error h' = Some e ∧ data h' = None ∧ isLoading h' = false)
  ∧ ∀ g : Hook V E Args, (∀ e', result g ≠ Error e') → error g = None.
Proof.
  intros [Hcur _]%reachable_invariant Hstep. split.
  - pose proof (report_error_result _ _ _ Hcur Hstep) as Hres.
    unfold isLoading, data, error. rewrite Hres.
    by destruct (negb _).
  - intros g Hg. unfold error. destruct (result g) as [| |e'] eqn:Hr; [done..|].
    by destruct (Hg e').
Qed.


(** C9: [enabled] defaults to true when absent and resolves to false when it
    is [false] or a closure returning [false]; when it resolves to false the
    subscription effect makes no call to [client.onUpdate] and leaves the hook
    without subscription, and [isLoading] is false (also when [data] and
    [error] are both undefined). *)
Theorem useQuery_enabled_false h :
  (enabled (call (options h)) = None →
     parsed_enabled (parseOptions (options h)) = true)
  ∧ (enabled (call (options h)) = Some (Given false)
     ∨ (∃ f, enabled (call (options h)) = Some (Closure f) ∧ f tt = false) ↔
     parsed_enabled (parseOptions (options h)) = false)
  ∧ (parsed_enabled (parseOptions (options h)) = false →
     subscription (subscribeEffect h) = None
     ∧ Registry.calls (registry (client (subscribeEffect h)))
       = Registry.calls (registry (client h))
     ∧ isLoading h = false
     ∧ isLoading (initialDataEffect (subscribeEffect h)) = false).
Proof.
  split; [|split].
  - unfold parseOptions. simpl. by intros ->.
  - unfold parseOptions. simpl. split.
    + intros [->|(f & -> & Hf)]; done.
    + destruct (enabled (call (options h))) as [[[]|f]|]; simpl; try done.
      * by left.
      * intros Hf. right. eauto.
  - intros Hoff. repeat split.
    + unfold subscribeEffect. by rewrite Hoff.
    + unfold subscribeEffect, teardown. rewrite Hoff. simpl.
      by destruct (subscription h) as [[]|].
    + unfold isLoading. by rewrite Hoff.
    + unfold isLoading.
      destruct (initialDataEffect_frame (subscribeEffect h)) as (_ & -> & _).
      destruct (subscribeEffect_frame h) as (_ & -> & _).
      by rewrite Hoff.
Qed.

End useQuery_facts.

(** * The query key of [useQuery] on Convex values *)
Section useQuery_key.
Import UseQuery ConvexJson.

Lemma leb_trans s1 s2 s3 :
  String.leb s1 s2 = true → String.leb s2 s3 = true → String.leb s1 s3 = true.
Proof.
  unfold String.leb.
  assert (∀ s1 s2 s3, String.compare s1 s2 ≠ Gt → String.compare s2 s3 ≠ Gt →
                      String.compare s1 s3 ≠ Gt) as Htrans.
  { clear. induction s1 as [|c1 s1 IH]; intros [|c2 s2] [|c3 s3]; simpl; try done.
    unfold Ascii.compare.
    destruct (N.compare_spec (Ascii.N_of_ascii c1) (Ascii.N_of_ascii c2));
      destruct (N.compare_spec (Ascii.N_of_ascii c2) (Ascii.N_of_ascii c3));
      destruct (N.compare_spec (Ascii.N_of_ascii c1) (Ascii.N_of_ascii c3));
      try done; try lia.
    apply IH. }
  intros H12 H23. specialize (Htrans s1 s2 s3).
  destruct (String.compare s1 s2), (String.compare s2 s3), (String.compare s1 s3);
    try done; exfalso; by apply Htrans.
Qed.

Lemma nameBefore_trans {A : Type} : Transitive (nameBefore (A := A)).
Proof. intros x y z. apply leb_trans. Qed.

Lemma nameBefore_total {A : Type} : Total (nameBefore (A := A)).
Proof. intros x y. apply String.leb_total. Qed.

(** In whatever order the entries of an object are met, sorting them by name
    gives the same list. *)
Lemma sorted_entries_any_order {A : Type} (l1 l2 : list (string * A)) :
  l1 ≡ₚ l2 → NoDup l1.*1 → merge_sort nameBefore l1 = merge_sort nameBefore l2.
Proof.
  intros Hperm Hnodup.
  apply (StronglySorted_unique_strong nameBefore).
  - intros [k1 v1] [k2 v2] H1 H2 H12 H21.
    rewrite merge_sort_Permutation in H1, H2. rewrite <-Hperm in H2.
    pose proof (String.leb_antisym _ _ H12 H21) as Hk. simpl in Hk. subst k2.
    f_equal.
    apply (elem_of_list_to_map (M := gmap string) _ _ _ Hnodup) in H1, H2.
    congruence.
  - apply (StronglySorted_merge_sort _ (Transitive0 := nameBefore_trans)
             (Total0 := nameBefore_total)).
  - apply (StronglySorted_merge_sort _ (Transitive0 := nameBefore_trans)
             (Total0 := nameBefore_total)).
  - by rewrite !merge_sort_Permutation.
Qed.

Lemma inFragment_names (a : Args) : NoDup (properties a).*1.
Proof.
  pose proof (inFragment a) as Hvalid. simpl in Hvalid.
  apply andb_prop in Hvalid as [Hnodup _].
  by apply bool_decide_eq_true in Hnodup.
Qed.

(** [convexToJson] does not see the order in which the properties of the
    args object were created. *)
Lemma convexToJson_property_order (a b : Args) :
  properties a ≡ₚ properties b →
  convexToJson (Object (properties a)) = convexToJson (Object (properties b)).
Proof.
  intros Hperm. simpl. f_equal.
  apply sorted_entries_any_order.
  - by apply fmap_Permutation.
  - rewrite <-list_fmap_compose. apply inFragment_names.
Qed.

(** C4: the key comparison of [useQuery] is decided by the serialisation
    [JSON.stringify(convexToJson(.))] of the two args objects, the one stored
    with the last result and the current one: [sameArgsAsLastResult] is true
    exactly when both serialise to the same string.  Two args objects with
    the same properties serialise equally, in whatever order the properties
    were written and whether or not they are the same JavaScript object; so
    they are the same query key. *)
Theorem useQuery_key_stable (h : Hook Value string Args) (a b : Args) :
  state_argsForLastResult (state h) = Some a →
  parseArgs (args h) = b →
  sameArgsAsLastResult h
  = bool_decide (stringify (convexToJson (Object (properties a)))
                 = stringify (convexToJson (Object (properties b))))
  ∧ (properties a ≡ₚ properties b →
     stringify (convexToJson (Object (properties a)))
     = stringify (convexToJson (Object (properties b)))
     ∧ sameArgsAsLastResult h = true).
Proof.
  intros Ha <-. rewrite (sameArgsAsLastResult_keys h a Ha).
  split; [done|]. intros Hperm.
  pose proof (convexToJson_property_order _ _ Hperm) as Hjson.
  split; [by rewrite Hjson|].
  apply bool_decide_eq_true. unfold argsKey. simpl. unfold queryKey.
  by rewrite Hjson.
Qed.

End useQuery_key.

(** * [useQuery] on the chat runtime *)
Section useQuery_chat.
Import UseQuery Chat.

Lemma runQuery_reachable evs h h' :
  reachable h → runQuery h evs = Some h' → reachable h'.
Proof.
  unfold runQuery. revert h.
  induction evs as [|ev evs IH]; intros h Hh; simpl.
  - by intros [= <-].
  - destruct (step h ev) as [h1|] eqn:Hstep.
    + apply IH. by eapply reachable_step.
    + clear. induction evs as [|? ? IH]; [done|exact IH].
Qed.

Example jsonKey_of_userArgs :
  jsonKey (userArgs 7) = "{" +:+ quote +:+ "id" +:+ quote +:+ ":7}".
Proof. reflexivity. Qed.

(** Loading, then the answer; with [keepPreviousData] the answer stays,
    marked stale, while the next args load. *)
Example life_of_a_query :
  isLoading (mounted keepPrevious) = true
  ∧ (data <$> step (mounted keepPrevious) (ServerData (JsNumber 5)))
    = Some (Some (JsNumber 5))
  ∧ (isStale <$> step (mounted keepPrevious) (ServerData (JsNumber 5)))
    = Some false
  ∧ isStale (afterAnswer (ServerData (JsNumber 5))) = true
  ∧ (data <$> step (afterAnswer (ServerData (JsNumber 5))) (ServerData (JsNumber 6)))
    = Some (Some (JsNumber 6))
  ∧ (isStale <$> step (afterAnswer (ServerData (JsNumber 5))) (ServerData (JsNumber 6)))
    = Some false.
Proof. vm_compute. repeat split. Qed.

Lemma afterAnswer_reachable answer :
  is_Some (answerThenNewArgs answer) → reachable (afterAnswer answer).
Proof.
  intros [h Hrun]. unfold afterAnswer. rewrite Hrun.
  eapply runQuery_reachable; [|exact Hrun]. constructor.
Qed.

(** The key a hook derives: the properties in the order of their names,
    strings quoted and escaped. *)
Example queryKey_of_channelArgs :
  ConvexJson.queryKey Scenes.channelArgs
  = "{" +:+ quote +:+ "channel" +:+ quote +:+ ":" +:+ quote +:+ "general" +:+ quote
    +:+ "," +:+ quote +:+ "user" +:+ quote +:+ ":7}"
  ∧ ConvexJson.queryKey Scenes.channelArgsAgain
    = ConvexJson.queryKey Scenes.channelArgs
  ∧ ConvexJson.queryKey Scenes.otherChannelArgs
    ≠ ConvexJson.queryKey Scenes.channelArgs
  ∧ ConvexJson.queryKey Scenes.oneTrickyProperty
    ≠ ConvexJson.queryKey Scenes.twoPlainProperties.
Proof. vm_compute. repeat split; discriminate. Qed.

Lemma useQuery_key_stable_witness :
  Scenes.channelArgs ≠ Scenes.channelArgsAgain
  ∧ ConvexJson.properties Scenes.channelArgs
    ≠ ConvexJson.properties Scenes.channelArgsAgain
  ∧ state_argsForLastResult (state (Scenes.channelCount Scenes.channelArgsAgain))
    = Some Scenes.channelArgs
  ∧ parseArgs (args (Scenes.channelCount Scenes.channelArgsAgain))
    = Scenes.channelArgsAgain
  ∧ sameArgsAsLastResult (Scenes.channelCount Scenes.channelArgsAgain) = true
  ∧ isStale (Scenes.channelCount Scenes.channelArgsAgain) = false
  ∧ sameArgsAsLastResult (Scenes.channelCount Scenes.otherChannelArgs) = false
  ∧ isStale (Scenes.channelCount Scenes.otherChannelArgs) = true
  ∧ sameArgsAsLastResult (Scenes.trickyThenPlain) = false.
Proof.
  split; [discriminate|]. split; [discriminate|].
  split; [reflexivity|]. split; [reflexivity|].
  destruct (useQuery_key_stable (Scenes.channelCount Scenes.channelArgsAgain)
              Scenes.channelArgs Scenes.channelArgsAgain eq_refl eq_refl)
    as [_ Hsame].
  destruct Hsame as [_ Hsame]; [apply perm_swap|].
  split; [exact Hsame|].
  split; [vm_compute; reflexivity|]. split; [vm_compute; reflexivity|].
  split; [vm_compute; reflexivity|].
  destruct (useQuery_key_stable Scenes.trickyThenPlain
              Scenes.oneTrickyProperty Scenes.twoPlainProperties eq_refl eq_refl)
    as [-> _].
  vm_compute; reflexivity.
Defined.

Lemma useQuery_error_forwarded_witness :
  ∃ h', step (mounted noOptions) (ServerError "boom") = Some h'
      ∧ error h' = Some "boom" ∧ data h' = None ∧ isLoading h' = false.
Proof.
  destruct (step (mounted noOptions) (ServerError "boom")) as [h'|] eqn:Hstep;
    [|by vm_compute in Hstep].
  exists h'. split; [done|].
  refine (proj1 (useQuery_error_forwarded (mounted noOptions) "boom" h' _ Hstep)).
  constructor.
Defined.


Lemma useQuery_enabled_false_witness :
  parsed_enabled (parseOptions (options (setup freshClient (Given (userArgs 1))
                                           (Given switchedOff)))) = false
  ∧ subscription (mounted switchedOff) = None
  ∧ Registry.calls (registry (client (mounted switchedOff))) = []
  ∧ isLoading (mounted switchedOff) = false
  ∧ data (mounted switchedOff) = None
  ∧ error (mounted switchedOff) = None
  ∧ parsed_enabled (parseOptions (options (mounted noOptions))) = true.
Proof.
  pose proof (useQuery_enabled_false
                (setup freshClient (Given (userArgs 1)) (Given switchedOff)))
    as (_ & Hiff & Hoff).
  assert (parsed_enabled (parseOptions (options (setup freshClient
            (Given (userArgs 1)) (Given switchedOff)))) = false) as Hfalse.
  { apply Hiff. right. by eexists. }
  destruct (Hoff Hfalse) as (Hsub & Hcalls & _ & Hload).
  split; [exact Hfalse|]. split; [exact Hsub|]. split; [exact Hcalls|].
  split; [exact Hload|]. split; [reflexivity|]. split; [reflexivity|].
  exact (proj1 (useQuery_enabled_false (mounted noOptions)) eq_refl).
Defined.


End useQuery_chat.

(** * Properties of [usePaginatedQuery] *)
Section usePaginatedQuery_facts.
Import UsePaginatedQuery.
Context {Item E Args : Type} `{EqDecision Item}.
Implicit Types (h : Hook Item E Args) (d : PaginationResult.t Item).

(** What the success callback does to the page list, without the equality
    test: an update in place at the first page with the delivered cursor, or
    an append. *)
Lemma onData_pages pageKey d h :
  pages (onData pageKey d h) =
    match list_find (λ page, PaginationResult.continueCursor page
                             = PaginationResult.continueCursor d) (pages h) with
    | Some (pageIndex, _) => <[pageIndex := d]> (pages h)
    | None => pages h ++ [d]
    end.
Proof.
  unfold onData. simpl.
  destruct (list_find _ (pages h)) as [[i old]|] eqn:Hfind; [|done].
  case_bool_decide as Heq; [|done].
  apply list_find_Some in Hfind as (Hi & _ & _).
  subst old. by rewrite list_insert_id.
Qed.

Lemma results_insert (l : list (PaginationResult.t Item)) i old d :
  l !! i = Some old →
  concat (PaginationResult.page <$> l)
  = concat (PaginationResult.page <$> take i l) ++ PaginationResult.page old
      ++ concat (PaginationResult.page <$> drop (S i) l)
  ∧ concat (PaginationResult.page <$> <[i := d]> l)
    = concat (PaginationResult.page <$> take i l) ++ PaginationResult.page d
      ++ concat (PaginationResult.page <$> drop (S i) l).
Proof.
  intros Hi. split.
  - rewrite <- (take_drop_middle l i old Hi) at 1.
    by rewrite fmap_app, concat_app.
  - rewrite insert_take_drop by (by eapply lookup_lt_Some).
    by rewrite fmap_app, concat_app.
Qed.

(** C1, as the code has it: a delivered result replaces in place the first
    stored page with the same [continueCursor] (length, order and cursors of
    the list unchanged), and is appended at the end when no stored page has
    that cursor.  So an update that still carries the cursor of a stored page
    is deduplicated: its items take the place of that page's items in
    [results]. *)
Theorem usePaginatedQuery_append_or_update pageKey d h :
  (Forall (λ page, PaginationResult.continueCursor page
                   ≠ PaginationResult.continueCursor d) (pages h) →
     pages (onData pageKey d h) = pages h ++ [d]
     ∧ results (onData pageKey d h) = results h ++ PaginationResult.page d)
  ∧ (∀ i old,
       pages h !! i = Some old →
       PaginationResult.continueCursor old = PaginationResult.continueCursor d →
       (∀ j page, pages h !! j = Some page → j < i →
          PaginationResult.continueCursor page ≠ PaginationResult.continueCursor d) →
       pages (onData pageKey d h) = <[i := d]> (pages h)
       ∧ length (pages (onData pageKey d h)) = length (pages h)
       ∧ PaginationResult.continueCursor <$> pages (onData pageKey d h)
         = PaginationResult.continueCursor <$> pages h
       ∧ results h
         = concat (PaginationResult.page <$> take i (pages h))
             ++ PaginationResult.page old
             ++ concat (PaginationResult.page <$> drop (S i) (pages h))
       ∧ results (onData pageKey d h)
         = concat (PaginationResult.page <$> take i (pages h))
             ++ PaginationResult.page d
             ++ concat (PaginationResult.page <$> drop (S i) (pages h))).
Proof.
  split.
  - intros Hnone.
    apply (list_find_None (λ page, PaginationResult.continueCursor page
                                   = PaginationResult.continueCursor d)) in Hnone.
    unfold results. rewrite onData_pages, Hnone.
    split; [done|]. rewrite fmap_app, concat_app. simpl. by rewrite app_nil_r.
  - intros i old Hi Hcur Hfirst.
    assert (list_find (λ page, PaginationResult.continueCursor page
                              = PaginationResult.continueCursor d) (pages h)
            = Some (i, old)) as Hfind.
    { apply list_find_Some. split; [done|]. split; [done|].
      intros j page Hj Hlt. by apply (Hfirst j page). }
    unfold results. rewrite onData_pages, Hfind.
    split; [done|]. split; [apply length_insert|]. split.
    + rewrite list_fmap_insert, <- Hcur.
      apply list_insert_id. by rewrite list_lookup_fmap, Hi.
    + apply results_insert, Hi.
Qed.

Lemma onData_distinctCursors pageKey d h :
  distinctCursors h → distinctCursors (onData pageKey d h).
Proof.
  unfold distinctCursors. intros Hnd. rewrite onData_pages.
  destruct (list_find _ (pages h)) as [[i old]|] eqn:Hfind.
  - apply list_find_Some in Hfind as (Hi & Hcur & _). simpl in Hcur.
    rewrite list_fmap_insert, <- Hcur.
    replace (<[i:=PaginationResult.continueCursor old]>
               (PaginationResult.continueCursor <$> pages h))
      with (PaginationResult.continueCursor <$> pages h); [done|].
    symmetry. apply list_insert_id. by rewrite list_lookup_fmap, Hi.
  - apply list_find_None in Hfind.
    rewrite fmap_app. apply NoDup_app. split; [done|]. split.
    + intros c (page & Hc & Hin)%list_elem_of_fmap Hd%list_elem_of_singleton.
      rewrite Forall_forall in Hfind. apply (Hfind page Hin). congruence.
    + apply NoDup_singleton.
Qed.

Lemma effect_pages h :
  pages (effect h) = match isFirstRender h, initialData (options h) with
                     | true, Some d => [d]
                     | _, _ => []
                     end.
Proof.
  unfold effect, subscribeToPage, resetState, clearSubscriptions. simpl.
  by destruct (isFirstRender h), (initialData (options h)).
Qed.

Lemma step_distinctCursors h (ev : Event (Item := Item) (E := E) (Args := Args)) :
  distinctCursors h → distinctCursors (step h ev).
Proof.
  intros Hh. destruct ev as [a|n|id d|id e|]; simpl.
  - unfold distinctCursors, argsChanged. rewrite effect_pages.
    repeat case_match; simpl; [apply NoDup_singleton|apply NoDup_nil_2..].
  - exact Hh.
  - case_match; [|done]. by apply onData_distinctCursors.
  - case_match; exact Hh.
  - exact Hh.
Qed.

(** In every state a mounted hook reaches, the stored pages have pairwise
    different cursors: the page an update replaces is the only one with its
    cursor. *)
Lemma run_distinctCursors c a o
    (evs : list (Event (Item := Item) (E := E) (Args := Args))) :
  distinctCursors (run (usePaginatedQuery c a o) evs).
Proof.
  assert (distinctCursors (usePaginatedQuery (E := E) c a o)) as Hmount.
  { unfold distinctCursors, usePaginatedQuery. rewrite effect_pages. simpl.
    destruct (initialData o); [apply NoDup_singleton|apply NoDup_nil_2]. }
  unfold run. revert Hmount. generalize (usePaginatedQuery (E := E) c a o).
  induction evs as [|ev evs IH]; intros h Hh; simpl; [done|].
  by apply IH, step_distinctCursors.
Qed.

Lemma status_cases h :
  (status h = LoadingFirstPage ↔ pagesLoading h !! "initial" = Some true)
  ∧ (status h = LoadingMore ↔
       pagesLoading h !! "initial" ≠ Some true
       ∧ ∃ pageKey, pagesLoading h !! pageKey = Some true)
  ∧ (status h = Exhausted ↔
       (∀ pageKey, pagesLoading h !! pageKey ≠ Some true) ∧ isDone h = true)
  ∧ (status h = CanLoadMore ↔
       (∀ pageKey, pagesLoading h !! pageKey ≠ Some true) ∧ isDone h = false).
Proof.
  assert (map_Exists (λ _ loading, loading = true) (pagesLoading h)
          ↔ ∃ pageKey, pagesLoading h !! pageKey = Some true) as Hex.
  { rewrite map_Exists_lookup. split.
    - intros (k & b & Hk & ->). eauto.
    - intros (k & Hk). eauto. }
  assert ((∀ pageKey, pagesLoading h !! pageKey ≠ Some true)
          ↔ ¬ ∃ pageKey, pagesLoading h !! pageKey = Some true) as Hall.
  { split; [intros Hn (k & Hk); by apply (Hn k)|intros Hn k Hk; apply Hn; eauto]. }
  unfold status.
  case_bool_decide as Hinit.
  { split_and!; [done| | |]; split; try done.
    - by intros [? _].
    - intros [Hn _]. by destruct (Hn "initial").
    - intros [Hn _]. by destruct (Hn "initial"). }
  case_bool_decide as Hsome; rewrite Hex in Hsome.
  { split_and!; [done| | |]; split; try done.
    - intros [Hn _]. by apply Hall in Hn.
    - intros [Hn _]. by apply Hall in Hn. }
  pose proof (proj2 Hall Hsome) as Hnone.
  destruct (isDone h); split_and!; try done; split; try done.
  all: by intros [_ ?].
Qed.

Lemma step_followsLatest h latest
    (ev : Event (Item := Item) (E := E) (Args := Args)) :
  followsLatest h latest → followsLatest (step h ev) (delivered h latest ev).
Proof.
  intros [Hfirst Hlatest].
  destruct ev as [a|n|id d|id e|]; simpl.
  - unfold followsLatest, argsChanged, effect, resetState. simpl.
    rewrite Hfirst. simpl. split; [done|]. split; [done|]. split; [done|].
    apply lookup_singleton_eq.
  - split; [done|]. destruct latest as [d|]; [done|].
    destruct Hlatest as (Hdone & Hnext & Hload).
    split; [done|]. split; [done|].
    unfold loadMore, subscribeToPage. simpl. by rewrite Hnext.
  - destruct (Registry.live (client h) id); [|done]. by split.
  - destruct (Registry.live (client h) id); by split.
  - by split.
Qed.

Lemma run_followsLatest evs h latest :
  followsLatest h latest → followsLatest (run h evs) (latestPage h latest evs).
Proof.
  unfold run. revert h latest.
  induction evs as [|ev evs IH]; intros h latest Hh; simpl; [done|].
  by apply IH, step_followsLatest.
Qed.

Lemma mounted_followsLatest c a (o : UsePaginatedQueryOptions Item) :
  followsLatest (usePaginatedQuery (E := E) (Args := Args) c a o) (initialData o).
Proof.
  unfold followsLatest, usePaginatedQuery, effect, resetState. simpl.
  destruct (initialData o); simpl; [done|].
  split; [done|]. split; [done|]. split; [done|]. apply lookup_singleton_eq.
Qed.

(** C5, as the code has it: in every state a mounted [usePaginatedQuery]
    reaches, [status] is LoadingFirstPage exactly when the initial page is
    marked loading; otherwise LoadingMore exactly when some page is marked
    loading; otherwise Exhausted exactly when the most recent page reported
    [isDone]; otherwise CanLoadMore.  The most recent page is the page
    delivered last since the args last changed, and [initialData] as long as
    neither a page was delivered nor the args changed since mount
    ([mostRecentPage]). *)
Theorem usePaginatedQuery_status c a o
    (evs : list (Event (Item := Item) (E := E) (Args := Args))) :
  let h := run (usePaginatedQuery c a o) evs in
  let noneLoading := ∀ pageKey, pagesLoading h !! pageKey ≠ Some true in
  (status h = LoadingFirstPage ↔ pagesLoading h !! "initial" = Some true)
  ∧ (status h = LoadingMore ↔
       pagesLoading h !! "initial" ≠ Some true
       ∧ ∃ pageKey, pagesLoading h !! pageKey = Some true)
  ∧ (status h = Exhausted ↔
       noneLoading
       ∧ ∃ d, mostRecentPage c a o evs = Some d ∧ PaginationResult.isDone d = true)
  ∧ (status h = CanLoadMore ↔
       noneLoading
       ∧ ∃ d, mostRecentPage c a o evs = Some d ∧ PaginationResult.isDone d = false).
Proof.
  intros h noneLoading.
  destruct (status_cases h) as (Hfirst & Hmore & Hexhausted & Hcan).
  pose proof (run_followsLatest evs _ _ (mounted_followsLatest c a o))
    as [_ Hlatest].
  fold h in Hlatest. fold (mostRecentPage c a o evs) in Hlatest.
  split; [done|]. split; [done|].
  rewrite Hexhausted, Hcan. unfold noneLoading.
  destruct (mostRecentPage c a o evs) as [d|].
  - destruct Hlatest as [-> _]. split; (split; intros [Hnone Hd]; (split; [done|])).
    + eauto.
    + by destruct Hd as (? & [= <-] & ?).
    + eauto.
    + by destruct Hd as (? & [= <-] & ?).
  - destruct Hlatest as (-> & _ & Hload).
    split; (split; intros [Hnone Hd]; [by destruct (Hnone "initial")|]).
    + by destruct Hd as (? & [=] & _).
    + by destruct Hd as (? & [=] & _).
Qed.

(** The request [subscribeToPage] sends and the bookkeeping it does. *)
Lemma subscribeToPage_spec cursor a h :
  Registry.calls (client (subscribeToPage cursor a h))
  = Registry.calls (client h)
      ++ [{| queryArgs := a; numItems := resolvedNumItems (options h);
             cursor := cursor |}]
  ∧ Registry.cancelled (client (subscribeToPage cursor a h))
    = Registry.cancelled (client h)
  ∧ subscriptions (subscribeToPage cursor a h)
    = <[pageKeyOf cursor := length (Registry.calls (client h))]> (subscriptions h).
Proof. done. Qed.

(** Whatever [numItems] is passed, [loadMore] subscribes to the page at
    [nextCursor] and asks for [initialNumItems] items (10 by default). *)
Lemma loadMore_request numItems h :
  Registry.calls (client (loadMore numItems h))
  = Registry.calls (client h)
      ++ [{| queryArgs := parseArgs (args h);
             UsePaginatedQuery.numItems :=
               match initialNumItems (options h) with
               | Some n => n
               | None => 10%Z
               end;
             cursor := nextCursor h |}].
Proof. done. Qed.

(** C10: [loadMore] does not look at [status]: in every state, whatever
    [status] is, the client gets exactly one more subscription, asked for the
    page at [nextCursor]; it is stored under the page key, which is the
    cursor itself when [nextCursor] is a cursor and 'initial' when it is
    null, and no other key of the map changes; no [unsubscribe] is invoked,
    so a subscription stored under that key before is no longer in the map
    and stays live. *)
Theorem usePaginatedQuery_loadMore_unguarded numItems h :
  let pageKey := match nextCursor h with
                 | Some cursor => cursor
                 | None => "initial"
                 end in
  let made := length (Registry.calls (client h)) in
  Registry.calls (client (loadMore numItems h))
  = Registry.calls (client h)
      ++ [{| queryArgs := parseArgs (args h);
             UsePaginatedQuery.numItems := resolvedNumItems (options h);
             cursor := nextCursor h |}]
  ∧ Registry.cancelled (client (loadMore numItems h))
    = Registry.cancelled (client h)
  ∧ subscriptions (loadMore numItems h) = <[pageKey := made]> (subscriptions h)
  ∧ subscriptions (loadMore numItems h) !! pageKey = Some made
  ∧ (∀ other, other ≠ pageKey →
       subscriptions (loadMore numItems h) !! other = subscriptions h !! other)
  ∧ (made ∉ Registry.cancelled (client h) →
     Registry.live (client (loadMore numItems h)) made
     = Some {| queryArgs := parseArgs (args h);
               UsePaginatedQuery.numItems := resolvedNumItems (options h);
               cursor := nextCursor h |})
  ∧ ∀ previous req,
      subscriptions h !! pageKey = Some previous →
      Registry.live (client h) previous = Some req →
      (∀ k, subscriptions (loadMore numItems h) !! k = Some previous →
            k ≠ pageKey ∧ subscriptions h !! k = Some previous)
      ∧ Registry.live (client (loadMore numItems h)) previous = Some req.
Proof.
  intros pageKey made. unfold loadMore.
  destruct (subscribeToPage_spec (nextCursor h) (parseArgs (args h)) h)
    as (Hcalls & Hcancelled & Hsubs).
  assert (pageKeyOf (nextCursor h) = pageKey) as Hkey
    by (unfold pageKey; by destruct (nextCursor h)).
  rewrite Hkey in Hsubs. fold made in Hsubs.
  split; [done|]. split; [done|]. split; [done|].
  split; [by rewrite Hsubs, lookup_insert_eq|].
  split; [by intros other Hother; rewrite Hsubs, lookup_insert_ne|].
  split.
  - intros Hmade. unfold Registry.live. rewrite Hcancelled, Hcalls.
    case_decide; [done|]. unfold made.
    by rewrite lookup_app_r, Nat.sub_diag by lia.
  - intros previous req Hprev Hlive.
    unfold Registry.live in *. rewrite Hcancelled, Hcalls, Hsubs.
    case_decide; [done|]. split.
    + intros k Hk. destruct (decide (k = pageKey)) as [->|Hne].
      * rewrite lookup_insert_eq in Hk. injection Hk as <-.
        apply lookup_lt_Some in Hlive. unfold made in Hlive. lia.
      * by rewrite lookup_insert_ne in Hk.
    + by apply lookup_app_l_Some.
Qed.

(** [subscriptions.forEach(unsubscribe => unsubscribe())] invokes exactly the
    stored closures. *)
Lemma clearSubscriptions_spec h :
  subscriptions (clearSubscriptions h) = ∅
  ∧ Registry.calls (client (clearSubscriptions h)) = Registry.calls (client h)
  ∧ ∀ id, id ∈ Registry.cancelled (client (clearSubscriptions h)) ↔
          id ∈ Registry.cancelled (client h)
          ∨ ∃ pageKey, subscriptions h !! pageKey = Some id.
Proof.
  split; [done|]. unfold clearSubscriptions. simpl.
  apply (map_fold_weak_ind
           (λ c (m : gmap string nat),
              Registry.calls c = Registry.calls (client h)
              ∧ ∀ id, id ∈ Registry.cancelled c ↔
                      id ∈ Registry.cancelled (client h)
                      ∨ ∃ pageKey, m !! pageKey = Some id)).
  - split; [done|]. intros id. split; [by left|].
    intros [?|(k & Hk)]; [done|]. by rewrite lookup_empty in Hk.
  - intros k x m c Hfresh [Hcalls Hcancelled]. split; [done|].
    intros id. simpl. rewrite elem_of_union, elem_of_singleton, Hcancelled.
    split.
    + intros [->|[?|(k' & Hk')]]; [right|by left|right].
      * exists k. by rewrite lookup_insert_eq.
      * exists k'. rewrite lookup_insert_ne; [done|]. by intros ->; simplify_eq.
    + intros [?|(k' & Hk')]; [by right; left|].
      destruct (decide (k = k')) as [->|Hne].
      * rewrite lookup_insert_eq in Hk'. left. by injection Hk'.
      * rewrite lookup_insert_ne in Hk' by done. right. right. eauto.
Qed.

(** What the effect does when the args change after the first render: every
    subscription stored in [subscriptions] is unsubscribed, the state is
    reset without [initialData], and one subscription to the first page is
    made with the new args. *)
Lemma argsChanged_spec a h :
  isFirstRender h = false →
  (∀ pageKey id, subscriptions h !! pageKey = Some id →
     Registry.live (client (argsChanged a h)) id = None)
  ∧ subscriptions (argsChanged a h)
    = {[ "initial" := length (Registry.calls (client h)) ]}
  ∧ Registry.calls (client (argsChanged a h))
    = Registry.calls (client h)
        ++ [{| queryArgs := parseArgs a;
               numItems := resolvedNumItems (options h);
               cursor := None |}]
  ∧ pages (argsChanged a h) = []
  ∧ nextCursor (argsChanged a h) = None
  ∧ error (argsChanged a h) = None
  ∧ isDone (argsChanged a h) = false
  ∧ pagesLoading (argsChanged a h) = {[ "initial" := true ]}.
Proof.
  intros Hfirst.
  destruct (clearSubscriptions_spec (setArgs a h)) as (_ & Hcalls & Hcancelled).
  destruct (clearSubscriptions_spec (clearSubscriptions (setArgs a h)))
    as (_ & Hcalls' & Hcancelled').
  pose (h1 := resetState (clearSubscriptions (clearSubscriptions (setArgs a h)))).
  change (argsChanged a h) with (subscribeToPage None (parseArgs a) h1).
  assert (options h1 = options h ∧ subscriptions h1 = ∅
          ∧ client h1 = client (clearSubscriptions (clearSubscriptions (setArgs a h)))
          ∧ pages h1 = [] ∧ nextCursor h1 = None ∧ error h1 = None
          ∧ isDone h1 = false ∧ pagesLoading h1 = {[ "initial" := true ]})
    as (Hopts & Hsubs & Hclient & Hpages & Hnext & Herr & Hdone & Hload).
  { unfold h1, resetState. simpl. rewrite Hfirst. done. }
  destruct (subscribeToPage_spec None (parseArgs a) h1) as (Hc & Hx & Hs).
  split; [|split; [|split]].
  - intros k id Hk. unfold Registry.live.
    rewrite decide_True; [done|].
    rewrite Hx, Hclient. apply Hcancelled'. left. apply Hcancelled. right.
    by exists k.
  - rewrite Hs, Hsubs, Hclient, Hcalls', Hcalls. done.
  - rewrite Hc, Hclient, Hcalls', Hcalls, Hopts. done.
  - done.
Qed.

(** After mount the effect has run, so every later args change takes the
    reset branch. *)
Lemma argsChanged_after_mount c a (o : UsePaginatedQueryOptions Item)
    (evs : list (Event (Item := Item) (E := E) (Args := Args))) a' :
  let h := run (usePaginatedQuery c a o) evs in
  (∀ pageKey id, subscriptions h !! pageKey = Some id →
     Registry.live (client (argsChanged a' h)) id = None)
  ∧ subscriptions (argsChanged a' h)
    = {[ "initial" := length (Registry.calls (client h)) ]}
  ∧ pages (argsChanged a' h) = []
  ∧ status (argsChanged a' h) = LoadingFirstPage.
Proof.
  intros h.
  destruct (run_followsLatest evs _ _ (mounted_followsLatest c a o)) as [Hfirst _].
  destruct (argsChanged_spec a' h Hfirst)
    as (Hlive & Hsubs & _ & Hpages & _ & _ & _ & Hload).
  split; [done|]. split; [done|]. split; [done|].
  apply status_cases. rewrite Hload. apply lookup_singleton_eq.
Qed.

(** With pairwise different cursors, a stored page that has the delivered
    cursor is the first one that has it. *)
Lemma distinctCursors_first h d i old :
  distinctCursors h →
  pages h !! i = Some old →
  PaginationResult.continueCursor old = PaginationResult.continueCursor d →
  ∀ j page, pages h !! j = Some page → j < i →
    PaginationResult.continueCursor page ≠ PaginationResult.continueCursor d.
Proof.
  intros Hnd Hi Hcur j page Hj Hlt Hsame.
  assert (j = i) as ->; [|lia].
  eapply (NoDup_lookup _ _ _ _ Hnd); rewrite list_lookup_fmap.
  - by rewrite Hj.
  - rewrite Hi. simpl. congruence.
Qed.

(** [loadMore] asks for the page after the most recently delivered one. *)
Lemma loadMore_after_latest c a (o : UsePaginatedQueryOptions Item)
    (evs : list (Event (Item := Item) (E := E) (Args := Args))) numItems :
  let h := run (usePaginatedQuery c a o) evs in
  cursor <$> last (Registry.calls (client (loadMore numItems h)))
  = Some (PaginationResult.continueCursor <$> mostRecentPage c a o evs).
Proof.
  intros h. rewrite loadMore_request, last_snoc. simpl. f_equal.
  destruct (run_followsLatest evs _ _ (mounted_followsLatest c a o)) as [_ Hlatest].
  fold h in Hlatest. fold (mostRecentPage c a o evs) in Hlatest.
  destruct (mostRecentPage c a o evs) as [d|]; simpl.
  - by destruct Hlatest as [_ ->].
  - by destruct Hlatest as (_ & -> & _).
Qed.

End usePaginatedQuery_facts.

(** * [usePaginatedQuery] on the chat runtime *)
Section usePaginatedQuery_chat.
Import UsePaginatedQuery Chat.

(** The life of the message list: loading, first page shown, loading more,
    exhausted. *)
Example status_of_message_list :
  status (messageList [] defaultPages) = LoadingFirstPage
  ∧ status (firstPageShown defaultPages) = CanLoadMore
  ∧ status (loadMore 10 (firstPageShown defaultPages)) = LoadingMore
  ∧ status (run (firstPageShown defaultPages)
              [LoadMore 10;
               PageData 1 (PaginationResult.Build ["zeroth"] true "end")])
    = Exhausted
  ∧ results (run (firstPageShown defaultPages)
               [LoadMore 10;
                PageData 1 (PaginationResult.Build ["zeroth"] true "end")])
    = ["second"; "first"; "zeroth"].
Proof. vm_compute. repeat split. Qed.

Example status_with_initialData :
  status (messageList []
            {| initialNumItems := Some 50%Z; initialData := Some firstPage |})
  = CanLoadMore
  ∧ results (messageList []
               {| initialNumItems := Some 50%Z; initialData := Some firstPage |})
    = ["second"; "first"].
Proof. vm_compute. repeat split. Qed.

Lemma usePaginatedQuery_append_or_update_witness :
  pages (onData "initial" firstPageEdited (firstPageShown (pagesOf 2)))
  = [firstPageEdited]
  ∧ results (onData "initial" firstPageEdited (firstPageShown (pagesOf 2)))
    = ["second (edited)"; "first"]
  ∧ pages (onData "initial" firstPageLater (firstPageShown (pagesOf 2)))
    = [firstPage; firstPageLater].
Proof.
  destruct (usePaginatedQuery_append_or_update "initial" firstPageEdited
              (firstPageShown (pagesOf 2))) as [_ Hupdate].
  destruct (Hupdate 0 firstPage) as (Hpages & _ & _ & _ & Hresults).
  - reflexivity.
  - reflexivity.
  - intros j page _ Hj. lia.
  - destruct (usePaginatedQuery_append_or_update "initial" firstPageLater
                (firstPageShown (pagesOf 2))) as [Happend _].
    destruct Happend as [Hpages' _].
    + repeat constructor. vm_compute. intros [=].
    + split; [exact Hpages|]. split; [exact Hresults|exact Hpages'].
Defined.

(** C1 as stated fails on the code: the only subscription of the list
    delivers its page again after a message was sent; the page now ends at
    another cursor, is appended, and its items are in [results] twice. *)
Lemma usePaginatedQuery_update_duplicates_items :
  length (Registry.calls (client (firstPageShown (pagesOf 2)))) = 1
  ∧ Registry.live (client (firstPageShown (pagesOf 2))) 0
    = Some {| queryArgs := []; numItems := 2; cursor := None |}
  ∧ results (firstPageShown (pagesOf 2)) = ["second"; "first"]
  ∧ pages (step (firstPageShown (pagesOf 2)) (PageData 0 firstPageLater))
    = [firstPage; firstPageLater]
  ∧ results (step (firstPageShown (pagesOf 2)) (PageData 0 firstPageLater))
    = ["second"; "first"; "third"; "second"].
Proof. vm_compute. repeat split. Qed.

(** C5 as stated fails on the code: hydrated with a page that reports
    [isDone], the list is Exhausted from mount on, although its only
    subscription has not delivered anything yet. *)
Lemma usePaginatedQuery_exhausted_before_delivery :
  status (messageList [] Scenes.hydratedExhausted) = Exhausted
  ∧ Registry.calls (client (messageList [] Scenes.hydratedExhausted))
    = [{| queryArgs := []; numItems := 50; cursor := None |}]
  ∧ PageHistory.lastDelivered (E := string) Registry.empty
      (Given ([] : list string)) Scenes.hydratedExhausted []
    = None
  ∧ ¬ (status (messageList [] Scenes.hydratedExhausted) = Exhausted ↔
       (∀ pageKey,
          pagesLoading (messageList [] Scenes.hydratedExhausted) !! pageKey
          ≠ Some true)
       ∧ ∃ d, PageHistory.lastDelivered (E := string) Registry.empty
                (Given ([] : list string)) Scenes.hydratedExhausted []
              = Some d
              ∧ PaginationResult.isDone d = true).
Proof.
  split; [vm_compute; reflexivity|]. split; [vm_compute; reflexivity|].
  split; [reflexivity|].
  intros [Hexhausted _].
  destruct Hexhausted as (_ & d & Hd & _); [vm_compute; reflexivity|].
  discriminate Hd.
Qed.

Lemma usePaginatedQuery_loadMore_unguarded_witness :
  (status (messageList [] defaultPages) = LoadingFirstPage
   ∧ nextCursor (messageList [] defaultPages) = None
   ∧ subscriptions (messageList [] defaultPages) !! "initial" = Some 0
   ∧ subscriptions (loadMore 50 (messageList [] defaultPages)) !! "initial" = Some 1
   ∧ Registry.live (client (loadMore 50 (messageList [] defaultPages))) 0
     = Some {| queryArgs := []; numItems := 10; cursor := None |})
  ∧ (status (loadMore 50 (firstPageShown defaultPages)) = LoadingMore
     ∧ nextCursor (loadMore 50 (firstPageShown defaultPages)) = Some "after-first"
     ∧ subscriptions (loadMore 50 (firstPageShown defaultPages)) !! "after-first"
       = Some 1
     ∧ subscriptions (loadMore 50 (loadMore 50 (firstPageShown defaultPages)))
       !! "after-first" = Some 2
     ∧ subscriptions (loadMore 50 (loadMore 50 (firstPageShown defaultPages)))
       !! "initial" = Some 0
     ∧ Registry.live
         (client (loadMore 50 (loadMore 50 (firstPageShown defaultPages)))) 1
       = Some {| queryArgs := []; numItems := 10; cursor := Some "after-first" |})
  ∧ (status lastPageShown = Exhausted
     ∧ Registry.live (client (loadMore 50 lastPageShown)) 1
       = Some {| queryArgs := []; numItems := 10; cursor := Some "end" |}
     ∧ subscriptions (loadMore 50 lastPageShown) !! "end" = Some 1).
Proof.
  split; [|split].
  - destruct (usePaginatedQuery_loadMore_unguarded (E := string) 50
                (messageList [] defaultPages))
      as (_ & _ & _ & Hstored & _ & _ & Hprevious).
    split; [vm_compute; reflexivity|]. split; [reflexivity|].
    split; [vm_compute; reflexivity|]. split; [exact Hstored|].
    apply (Hprevious 0); vm_compute; reflexivity.
  - destruct (usePaginatedQuery_loadMore_unguarded (E := string) 50
                (loadMore 50 (firstPageShown defaultPages)))
      as (_ & _ & _ & Hstored & Hothers & _ & Hprevious).
    split; [vm_compute; reflexivity|]. split; [reflexivity|].
    split; [vm_compute; reflexivity|]. split; [exact Hstored|].
    split; [rewrite Hothers; [vm_compute; reflexivity|discriminate]|].
    apply (Hprevious 1); vm_compute; reflexivity.
  - destruct (usePaginatedQuery_loadMore_unguarded (E := string) 50 lastPageShown)
      as (_ & _ & _ & Hstored & _ & Hlive & _).
    split; [vm_compute; reflexivity|]. split; [|exact Hstored].
    apply Hlive. vm_compute. discriminate.
Defined.

(** C6 fails on the code at this input: [loadMore] during the first load
    stored its subscription over the one made on mount; when the args change
    only the stored one is unsubscribed.  The subscription made on mount stays
    live with the old args, and what it delivers is shown for the new args. *)
Theorem usePaginatedQuery_args_change_leaves_subscription :
  Registry.live (client loadMoreThenNewArgs) 0
  = Some {| queryArgs := ["spam"]; numItems := 10; cursor := None |}
  ∧ Registry.live (client loadMoreThenNewArgs) 1 = None
  ∧ Registry.live (client loadMoreThenNewArgs) 2
    = Some {| queryArgs := ["ads"]; numItems := 10; cursor := None |}
  ∧ subscriptions loadMoreThenNewArgs !! "initial" = Some 2
  ∧ parseArgs (args loadMoreThenNewArgs) = ["ads"]
  ∧ results loadMoreThenNewArgs = []
  ∧ results (step loadMoreThenNewArgs (PageData 0 firstPage))
    = ["second"; "first"].
Proof. vm_compute. repeat split. Qed.

(** The same happens when "Load more" is only offered while [status] is
    CanLoadMore. *)
Example leak_with_guarded_loadMore :
  status (firstPageShown defaultPages) = CanLoadMore
  ∧ status (run (firstPageShown defaultPages) loadMoreTwice) = CanLoadMore
  ∧ nextCursor (run (firstPageShown defaultPages) loadMoreTwice)
    = Some "after-first"
  ∧ Registry.live
      (client (run (firstPageShown defaultPages)
                 (loadMoreTwice ++ [LoadMore 50; ArgsChanged (Given ["ads"])])))
      1
    = Some {| queryArgs := []; numItems := 10; cursor := Some "after-first" |}.
Proof. vm_compute. repeat split. Qed.

(** C7 fails on the code at this input: the list was set up with pages of 50,
    [loadMore(25)] asks for 50 items, as [loadMore(50)] does. *)
Theorem usePaginatedQuery_loadMore_ignores_numItems :
  status (firstPageShown (pagesOf 50)) = CanLoadMore
  ∧ last (Registry.calls (client (loadMore 25 (firstPageShown (pagesOf 50)))))
    = Some {| queryArgs := []; numItems := 50; cursor := Some "after-first" |}
  ∧ loadMore 25 (firstPageShown (pagesOf 50))
    = loadMore 50 (firstPageShown (pagesOf 50)).
Proof. vm_compute. repeat split. Qed.

End usePaginatedQuery_chat.

(** * More on [useQuery]: what it shows, and when *)
Section useQuery_more.
Import UseQuery.
Context {V E Args : Type} `{!Runtime V E Args}.
Implicit Types (h : Hook V E Args).

Lemma useQuery_mounted c a o :
  args (useQuery c a o) = a
  ∧ options (useQuery c a o) = o
  ∧ initialArgs (useQuery c a o) = parseArgs a
  ∧ state (useQuery c a o) = state (setup c a o)
  ∧ disabled (client (useQuery c a o)) = disabled c
  ∧ localResults (client (useQuery c a o)) = localResults c.
Proof.
  unfold useQuery, initialDataEffect, subscribeEffect.
  destruct (parsed_enabled (parseOptions (options (setup c a o)))); simpl;
    by rewrite bool_decide_eq_true_2.
Qed.

Lemma report_data_sync d h h' :
  subscriptionIsCurrent h →
  report (Value d) (λ argsObject, onData argsObject d) h = Some h' →
  syncResult h' = Value d.
Proof.
  intros Hcur (id & a & Hsub & Hdis & ->)%report_inv.
  pose proof (Hcur _ _ Hsub) as ->.
  unfold syncResult, localQueryResult. simpl.
  rewrite Hdis, lookup_insert_eq.
  by destruct (truthyOption _ && negb _).
Qed.

(** X2: the loading variant of [UseQueryReturn]: whenever [isLoading] is true
    the query is enabled, [data] and [error] are both undefined and [isStale]
    is false. *)
Theorem useQuery_loading_shape h :
  isLoading h = true →
  parsed_enabled (parseOptions (options h)) = true
  ∧ data h = None ∧ error h = None ∧ isStale h = false.
Proof.
  unfold isLoading, isStale, data, error.
  destruct (parsed_enabled (parseOptions (options h))); simpl; [|done].
  destruct (result h); simpl; try done.
  intros _. by rewrite andb_false_r.
Qed.


(** X4: a truthy [initialData] is what a freshly mounted hook shows, without
    loading and as fresh data, whatever the client has or is (also a disabled
    client, as during server-side rendering). *)
Theorem useQuery_initialData_shown c a o v :
  parsed_initialData (parseOptions o) = Some v →
  truthy v = true →
  data (useQuery c a o) = Some v
  ∧ error (useQuery c a o) = None
  ∧ isLoading (useQuery c a o) = false
  ∧ isStale (useQuery c a o) = false.
Proof.
  intros Hinit Htruthy.
  destruct (useQuery_mounted c a o) as (_ & Hopts & _ & Hstate & _).
  assert (syncResult (useQuery c a o) = Value v) as Hsync.
  { unfold syncResult, setup. rewrite Hopts, Hstate. simpl.
    change (initialData (call o) = Some v) in Hinit.
    rewrite Hinit. simpl. by rewrite Htruthy. }
  unfold isLoading, isStale, data, error, result. rewrite Hsync. simpl.
  split; [done|]. split; [done|]. split; [|done]. by destruct (negb _).
Qed.

(** X5: without a truthy [initialData] -- none, or one that is [null], [0],
    [false] or the empty string -- a freshly mounted hook shows what the
    client has for the args, and nothing on a disabled client: there it is
    loading exactly when the query is enabled. *)
Theorem useQuery_without_initialData c a o :
  truthyOption (parsed_initialData (parseOptions o)) = false →
  result (useQuery c a o)
  = (if disabled c then Undefined else localQueryResult c (parseArgs a))
  ∧ (disabled c = true →
     data (useQuery c a o) = None
     ∧ error (useQuery c a o) = None
     ∧ isLoading (useQuery c a o) = parsed_enabled (parseOptions o)).
Proof.
  intros Hfalsy.
  destruct (useQuery_mounted c a o) as (Hargs & Hopts & _ & Hstate & Hdis & Hloc).
  assert (result (useQuery c a o)
          = if disabled c then Undefined else localQueryResult c (parseArgs a))
    as Hres.
  { unfold result, syncResult, staleAllowed, localQueryResult, setup.
    rewrite Hopts, Hstate, Hargs, Hdis, Hloc, Hfalsy.
    cbn [state state_lastResult truthyResult andb].
    rewrite andb_false_r.
    destruct (disabled c); [done|]. by destruct (localResults c !! _) as [[]|]. }
  split; [done|]. intros Hoff.
  unfold isLoading, data, error. rewrite Hres, Hoff, Hopts.
  by destruct (parsed_enabled (parseOptions o)).
Qed.

(** What an args change leaves behind, once both effects have run. *)
Lemma argsChanged_outcome a' h :
  let h' := initialDataEffect (subscribeEffect (setArgs a' h)) in
  args h' = a'
  ∧ options h' = options h
  ∧ initialArgs h' = initialArgs h
  ∧ disabled (client h') = disabled (client h)
  ∧ localResults (client h') = localResults (client h)
  ∧ state h'
    = if negb (state_haveArgsEverChanged (state h))
         && negb (bool_decide (argsKey (parseArgs a') = argsKey (initialArgs h)))
      then match parsed_initialData (parseOptions (options h)) with
           | Some d => {| state_result := state_result (state h);
                          state_lastResult := Value d;
                          state_argsForLastResult := Some (initialArgs h);
                          state_haveArgsEverChanged := true |}
           | None => {| state_result := state_result (state h);
                        state_lastResult := state_lastResult (state h);
                        state_argsForLastResult := state_argsForLastResult (state h);
                        state_haveArgsEverChanged := true |}
           end
      else state h.
Proof.
  unfold initialDataEffect, subscribeEffect.
  destruct (parsed_enabled (parseOptions (options (setArgs a' h)))); simpl;
    destruct (state_haveArgsEverChanged (state h)); simpl; try done;
    case_bool_decide; simpl; try done;
    by destruct (initialData (call (options h))).
Qed.

(** X6: on the first change of the args, [initialData] becomes the previous
    result, recorded for the initial args -- also when the server had already
    delivered a newer result.  With [keepPreviousData], a truthy
    [initialData] is then what the hook shows, marked stale, while nothing is
    available for the new args. *)
Theorem useQuery_initialData_becomes_previous h a' h' v :
  state_haveArgsEverChanged (state h) = false →
  parsed_initialData (parseOptions (options h)) = Some v →
  argsKey (parseArgs a') ≠ argsKey (initialArgs h) →
  step h (ArgsChanged a') = Some h' →
  state_lastResult (state h') = Value v
  ∧ state_argsForLastResult (state h') = Some (initialArgs h)
  ∧ state_haveArgsEverChanged (state h') = true
  ∧ (parsed_keepPreviousData (parseOptions (options h)) = Some true →
     truthy v = true →
     disabled (client h) = true
     ∨ localQueryResult (client h) (parseArgs a') = Undefined →
     data h' = Some v ∧ isStale h' = true ∧ isLoading h' = false).
Proof.
  intros Hnever Hinit Hkey [= <-].
  destruct (argsChanged_outcome a' h) as (Hargs & Hopts & Hinitial & Hdis & Hloc & Hstate).
  rewrite Hnever, Hinit, bool_decide_eq_false_2 in Hstate by done.
  simpl in Hstate.
  split; [by rewrite Hstate|]. split; [by rewrite Hstate|].
  split; [by rewrite Hstate|].
  intros Hkeep Htruthy Hnothing.
  set (h' := initialDataEffect (subscribeEffect (setArgs a' h))) in *.
  assert (syncResult h' = Undefined) as Hsync.
  { unfold syncResult, localQueryResult in *.
    rewrite Hstate, Hargs, Hdis, Hloc. simpl. rewrite andb_false_r.
    destruct Hnothing as [->| ->]; [done|]. by destruct (disabled (client h)). }
  assert (staleAllowed h' = true) as Hallowed.
  { unfold staleAllowed. rewrite Hopts, Hkeep, Hstate. simpl. done. }
  assert (result h' = Value v) as Hres.
  { unfold result. by rewrite Hsync, Hallowed, Hstate. }
  unfold isStale, isLoading, data, error, sameArgsAsLastResult.
  rewrite Hres, Hsync, Hallowed, Hstate, Hargs. simpl.
  split; [done|]. split; [|by destruct (negb _)].
  rewrite bool_decide_eq_false_2; [done|]. by intros Heq; apply Hkey.
Qed.

(** [haveArgsEverChanged] is never set back to false. *)
Lemma haveArgsEverChanged_stays h ev h' :
  state_haveArgsEverChanged (state h) = true →
  step h ev = Some h' →
  state_haveArgsEverChanged (state h') = true.
Proof.
  intros Hchanged Hstep.
  destruct ev as [a|o|d|e|k r|]; simpl in Hstep.
  - injection Hstep as <-.
    destruct (argsChanged_outcome a h) as (_ & _ & _ & _ & _ & ->).
    by rewrite Hchanged.
  - injection Hstep as <-. unfold initialDataEffect.
    destruct (subscribeEffect_frame (setOptions o h)) as (_ & _ & Hst & _).
    rewrite Hst. simpl. rewrite Hchanged. simpl. by rewrite Hst.
  - by apply report_inv in Hstep as (? & ? & _ & _ & ->).
  - by apply report_inv in Hstep as (? & ? & _ & _ & ->).
  - unfold otherQueryResult in Hstep.
    by repeat case_match; simplify_eq.
  - by injection Hstep as <-.
Qed.

(** X8: when the args change to args for which the client already holds a
    result, the hook shows that result at once: no loading, not stale.
    (It needs the hook to be off [initialData], and a client that is not
    disabled.) *)
Theorem useQuery_cached_result_shown h a' h' r :
  step h (ArgsChanged a') = Some h' →
  disabled (client h) = false →
  localQueryResult (client h) (parseArgs a') = r →
  r ≠ Undefined →
  truthyOption (parsed_initialData (parseOptions (options h))) = false
  ∨ state_haveArgsEverChanged (state h) = true
  ∨ argsKey (parseArgs a') ≠ argsKey (initialArgs h) →
  result h' = r ∧ isStale h' = false ∧ isLoading h' = false.
Proof.
  intros [= <-] Hon Hcached Hdefined Hoff.
  destruct (argsChanged_outcome a' h) as (Hargs & Hopts & _ & Hdis & Hloc & Hstate).
  set (h' := initialDataEffect (subscribeEffect (setArgs a' h))) in *.
  assert (syncResult h' = r) as Hsync.
  { unfold syncResult, localQueryResult in *.
    rewrite Hopts, Hargs, Hdis, Hloc, Hon, Hcached.
    assert (state_haveArgsEverChanged (state h') = true
            ∨ truthyOption (parsed_initialData (parseOptions (options h))) = false)
      as [->| ->]; [|by rewrite andb_false_r|done].
    rewrite Hstate.
    destruct Hoff as [?|[Hchanged|Hkey]]; [by right|left..].
    - by rewrite Hchanged.
    - rewrite bool_decide_eq_false_2 by done.
      destruct (state_haveArgsEverChanged (state h)) eqn:Hc; simpl; [done|].
      by destruct (initialData (call (options h))). }
  unfold isStale, isLoading, data, error, result. rewrite Hsync.
  destruct r as [|v|e]; [done|..]; simpl;
    (split; [done|]); (split; [done|]); repeat case_match; done.
Qed.

End useQuery_more.

(** * [useQuery] with [syncResult] as Svelte keeps it *)
Section useQuery_memo.
Import UseQuery.
Context {V E Args : Type} `{!Runtime V E Args} `{!Memo.Primitive V} `{EqDecision V}.
Implicit Types (h : Hook V E Args) (m : Memo.t V E Args).

Lemma memo_step_inv m ev m' :
  Memo.step m ev = Some m' →
  step (Memo.hook m) ev = Some (Memo.hook m')
  ∧ Memo.syncResult m'
    = if Memo.invalidates (Memo.hook m) (Memo.hook m') ev
      then syncResult (Memo.hook m')
      else Memo.syncResult m.
Proof.
  unfold Memo.step. destruct (step (Memo.hook m) ev) as [h'|]; [|done].
  by intros [= <-].
Qed.

Lemma memo_reachable_hook m : Memo.reachable m → reachable (Memo.hook m).
Proof.
  induction 1 as [c a o|m ev m' _ IH Hstep]; [constructor|].
  apply memo_step_inv in Hstep as [Hstep _]. by eapply reachable_step.
Qed.

Lemma memo_run_reachable evs m m' :
  Memo.reachable m → Memo.run m evs = Some m' → Memo.reachable m'.
Proof.
  revert m. induction evs as [|ev evs IH]; intros m Hm; simpl.
  - by intros [= <-].
  - destruct (Memo.step m ev) as [m1|] eqn:Hstep; [|done].
    apply IH. by eapply Memo.reachable_step.
Qed.

(** When [syncResult] is up to date, the hook shows what the derived values
    of [UseQuery] say. *)
Lemma upToDate_shows m :
  Memo.upToDate m →
  Memo.result m = result (Memo.hook m)
  ∧ Memo.data m = data (Memo.hook m)
  ∧ Memo.error m = error (Memo.hook m)
  ∧ Memo.isStale m = isStale (Memo.hook m)
  ∧ Memo.isLoading m = isLoading (Memo.hook m).
Proof.
  intros Hm.
  assert (Memo.result m = result (Memo.hook m)) as Hres
    by (unfold Memo.result, result; by rewrite Hm).
  unfold Memo.isLoading, isLoading, Memo.isStale, isStale, Memo.data, data,
    Memo.error, error.
  by rewrite Hres, Hm.
Qed.

Lemma changesCell_error (held : Result V E) e :
  Memo.changesCell held (Error e) = true.
Proof. by destruct held. Qed.

Lemma changesCell_same (held : Result V E) d :
  Memo.changesCell held (Value d) = false → held = Value d.
Proof.
  destruct held as [|v|e]; simpl; try done.
  rewrite negb_false_iff, andb_true_iff.
  intros [_ Heq]. apply bool_decide_eq_true in Heq. by rewrite Heq.
Qed.

(** As long as [syncResult] returns [state.result], it is up to date: every
    assignment that changes the cell is a signal it has read. *)
Lemma returnsStateResult_upToDate m :
  Memo.reachable m →
  Memo.returnsStateResult (Memo.hook m) = true →
  Memo.upToDate m.
Proof.
  induction 1 as [c a o|m ev m' Hm IH Hstep]; [done|].
  intros Hreturns. apply memo_step_inv in Hstep as [Hstep Hsync].
  unfold Memo.upToDate. rewrite Hsync.
  destruct (Memo.invalidates (Memo.hook m) (Memo.hook m') ev) eqn:Hinv; [done|].
  assert (syncResult (Memo.hook m') = state_result (state (Memo.hook m'))) as ->.
  { unfold syncResult. unfold Memo.returnsStateResult in Hreturns.
    by rewrite Hreturns. }
  assert (Memo.returnsStateResult (Memo.hook m) = true
          → Memo.syncResult m = state_result (state (Memo.hook m))) as Hbefore.
  { intros Hr. rewrite (IH Hr). unfold syncResult.
    unfold Memo.returnsStateResult in Hr. by rewrite Hr. }
  destruct ev as [a|o|d|e|k r|]; simpl in Hstep, Hinv.
  - apply orb_false_iff in Hinv as [Hr _]. apply negb_false_iff in Hr.
    rewrite (Hbefore Hr). injection Hstep as Hstep. rewrite <-Hstep.
    destruct (argsChanged_outcome a (Memo.hook m)) as (_ & _ & _ & _ & _ & ->).
    by repeat case_match.
  - done.
  - apply changesCell_same in Hinv.
    apply report_inv in Hstep as (id & argsObject & _ & _ & Hh').
    assert (Memo.returnsStateResult (Memo.hook m) = true) as Hr.
    { rewrite <-Hreturns, Hh'. done. }
    rewrite (Hbefore Hr), Hinv, Hh'. done.
  - by rewrite changesCell_error in Hinv.
  - assert (state (Memo.hook m') = state (Memo.hook m)
            ∧ options (Memo.hook m') = options (Memo.hook m)) as [Hst Hopts].
    { unfold otherQueryResult in Hstep.
      repeat case_match; simplify_eq; by rewrite <-Hstep. }
    assert (Memo.returnsStateResult (Memo.hook m) = true) as Hr.
    { rewrite <-Hreturns. unfold Memo.returnsStateResult. by rewrite Hst, Hopts. }
    by rewrite (Hbefore Hr), Hst.
  - injection Hstep as Hstep.
    assert (Memo.returnsStateResult (Memo.hook m) = true) as Hr.
    { by rewrite <-Hreturns, <-Hstep. }
    by rewrite (Hbefore Hr), <-Hstep.
Qed.

(** A subscription exists only while the query is enabled. *)
Lemma subscription_enabled h :
  reachable h →
  is_Some (subscription h) →
  parsed_enabled (parseOptions (options h)) = true.
Proof.
  assert (∀ g : Hook V E Args,
            is_Some (subscription (initialDataEffect (subscribeEffect g))) →
            parsed_enabled
              (parseOptions (options (initialDataEffect (subscribeEffect g)))) = true)
    as Heffects.
  { intros g.
    destruct (initialDataEffect_frame (subscribeEffect g)) as (_ & -> & _ & -> & _).
    unfold subscribeEffect.
    destruct (parsed_enabled (parseOptions (options g))) eqn:Hon; simpl;
      [done|by intros [? [=]]]. }
  induction 1 as [c a o|h ev h' _ IH Hstep]; [apply Heffects|].
  destruct ev as [a|o|d|e|k r|]; simpl in Hstep.
  - injection Hstep as <-. apply Heffects.
  - injection Hstep as <-. apply Heffects.
  - apply report_inv in Hstep as (? & ? & _ & _ & ->). exact IH.
  - apply report_inv in Hstep as (? & ? & _ & _ & ->). exact IH.
  - unfold otherQueryResult in Hstep. by repeat case_match; simplify_eq.
  - injection Hstep as <-. by intros [? [=]].
Qed.

(** X1: when the client delivers a value to the current subscription and
    the assignment to [state.result] changes that cell -- the value is an
    object, or it differs from what the cell holds -- or [syncResult] still
    returns [state.result], the hook shows exactly that value: [data] is it,
    [error] is undefined, and it is neither loading nor stale, whatever was
    shown before. *)
Theorem useQuery_data_forwarded m d m' :
  Memo.reachable m →
  Memo.step m (ServerData d) = Some m' →
  Memo.changesCell (state_result (state (Memo.hook m))) (Value d) = true
  ∨ Memo.returnsStateResult (Memo.hook m) = true →
  Memo.data m' = Some d ∧ Memo.error m' = None
  ∧ Memo.isLoading m' = false ∧ Memo.isStale m' = false.
Proof.
  intros Hm Hstep Hseen.
  pose proof (Memo.reachable_step _ _ _ Hm Hstep) as Hm'.
  apply memo_step_inv in Hstep as [Hstep Hsync].
  destruct (reachable_invariant _ (memo_reachable_hook _ Hm)) as [Hcur _].
  pose proof (report_data_sync _ _ _ Hcur Hstep) as Hnow.
  assert (Memo.syncResult m' = Value d) as Hshown.
  { destruct Hseen as [Hsignal|Hreturns].
    - simpl in Hsync. by rewrite Hsignal in Hsync; rewrite Hsync.
    - rewrite <-Hnow. apply returnsStateResult_upToDate; [done|].
      apply report_inv in Hstep as (? & ? & _ & _ & ->). exact Hreturns. }
  unfold Memo.isLoading, Memo.isStale, Memo.data, Memo.error, Memo.result.
  rewrite Hshown. simpl.
  split; [done|]. split; [done|]. split; [|done]. by destruct (negb _).
Qed.

(** X7: once the args have changed, [haveArgsEverChanged] stays true through
    every later event, also when the args are the initial ones again: so
    [syncResult] never returns [state.result] again, and whenever it is
    computed again it is the client's local result for the current args
    (undefined on a disabled client). *)
Theorem useQuery_initialData_never_returns m evs m' :
  state_haveArgsEverChanged (state (Memo.hook m)) = true →
  Memo.run m evs = Some m' →
  state_haveArgsEverChanged (state (Memo.hook m')) = true
  ∧ Memo.returnsStateResult (Memo.hook m') = false
  ∧ ∀ ev m'', Memo.step m' ev = Some m'' →
      Memo.syncResult m'' = Memo.syncResult m'
      ∨ Memo.syncResult m''
        = (if disabled (client (Memo.hook m'')) then Undefined
           else localQueryResult (client (Memo.hook m''))
                  (parseArgs (args (Memo.hook m'')))).
Proof.
  intros Hchanged Hrun.
  assert (state_haveArgsEverChanged (state (Memo.hook m')) = true) as Hlater.
  { revert m Hchanged Hrun.
    induction evs as [|ev evs IH]; intros m Hchanged; simpl.
    - by intros [= <-].
    - destruct (Memo.step m ev) as [m1|] eqn:Hstep; [|done].
      apply IH. apply memo_step_inv in Hstep as [Hstep _].
      by eapply haveArgsEverChanged_stays. }
  split; [done|].
  split; [unfold Memo.returnsStateResult; by rewrite Hlater, andb_false_r|].
  intros ev m'' Hstep. apply memo_step_inv in Hstep as [Hstep ->].
  destruct (Memo.invalidates _ _ ev); [right|by left].
  unfold syncResult.
  rewrite (haveArgsEverChanged_stays _ _ _ Hlater Hstep).
  by rewrite andb_false_r.
Qed.

(** X27: an answer that is [===] to what [state.result] still holds (the
    same number, string or boolean as the answer for the previous args)
    changes no signal: [syncResult] keeps its value although the client now
    has the answer for the current args.  When that value is undefined, the
    hook goes on showing no data and, the query being enabled, loading --
    unless [keepPreviousData] lets a truthy answer be shown as the last
    result. *)
Theorem useQuery_equal_answer_unnoticed m d m' :
  Memo.reachable m →
  Memo.step m (ServerData d) = Some m' →
  Memo.changesCell (state_result (state (Memo.hook m))) (Value d) = false →
  Memo.syncResult m = Undefined →
  state_result (state (Memo.hook m)) = Value d
  ∧ localQueryResult (client (Memo.hook m')) (parseArgs (args (Memo.hook m')))
    = Value d
  ∧ Memo.syncResult m' = Undefined
  ∧ Memo.error m' = None
  ∧ Memo.isStale m' = false
  ∧ (if truthyFlag (parsed_keepPreviousData (parseOptions (options (Memo.hook m))))
        && truthy d
     then Memo.data m' = Some d ∧ Memo.isLoading m' = false
     else Memo.data m' = None ∧ Memo.isLoading m' = true).
Proof.
  intros Hm Hstep Hsilent Hnothing.
  apply memo_step_inv in Hstep as [Hstep Hsync].
  pose proof (memo_reachable_hook _ Hm) as Hh.
  destruct (reachable_invariant _ Hh) as [Hcur _].
  simpl in Hsync. rewrite Hsilent, Hnothing in Hsync.
  pose proof (changesCell_same _ _ Hsilent) as Hheld.
  pose proof Hstep as Hreport.
  apply report_inv in Hreport as (id & argsObject & Hsub & Hdis & Hh').
  pose proof (Hcur _ _ Hsub) as ->.
  assert (parsed_enabled (parseOptions (options (Memo.hook m))) = true) as Hon.
  { apply subscription_enabled; [done|]. by rewrite Hsub. }
  split; [done|]. split.
  { rewrite Hh'. unfold localQueryResult. simpl. by rewrite lookup_insert_eq. }
  split; [done|].
  assert (staleAllowed (Memo.hook m')
          = truthyFlag (parsed_keepPreviousData
                          (parseOptions (options (Memo.hook m))))
            && truthy d) as Hallowed by (by rewrite Hh').
  assert (sameArgsAsLastResult (Memo.hook m') = true) as Hsame.
  { rewrite Hh'. unfold sameArgsAsLastResult. simpl.
    by apply bool_decide_eq_true. }
  assert (state_lastResult (state (Memo.hook m')) = Value d) as Hlast
    by (by rewrite Hh').
  assert (options (Memo.hook m') = options (Memo.hook m)) as Hopts
    by (by rewrite Hh').
  unfold Memo.isLoading, Memo.isStale, Memo.data, Memo.error, Memo.result.
  rewrite Hsync, Hallowed, Hsame, Hlast, Hopts, Hon. simpl.
  destruct (truthyFlag _ && truthy d); simpl; by rewrite ?andb_false_r.
Qed.

End useQuery_memo.

(** * [useQuery] and the client's subscriptions *)
Section useQuery_subscriptions.
Import UseQuery QueryHistory.
Context {V E Args : Type} `{!Runtime V E Args}.
Implicit Types (h : Hook V E Args).

Lemma teardown_silences base h :
  wellFormed (registry (client h)) →
  (∀ id a, subscription h = Some (id, a) →
     base ≤ id ∧ Registry.live (registry (client h)) id = Some a) →
  (∀ id a, base ≤ id → Registry.live (registry (client h)) id = Some a →
     subscription h = Some (id, a)) →
  wellFormed (teardown h)
  ∧ Registry.calls (teardown h) = Registry.calls (registry (client h))
  ∧ ∀ id, base ≤ id → Registry.live (teardown h) id = None.
Proof.
  intros Hwf Hheld Honly. unfold teardown.
  destruct (subscription h) as [[id a]|] eqn:Hsub.
  - destruct (Hheld id a eq_refl) as [Hbase Hlive].
    assert (id < length (Registry.calls (registry (client h)))) as Hlt.
    { unfold Registry.live in Hlive. case_decide; [done|].
      by eapply lookup_lt_Some. }
    split; [|split; [done|]].
    + intros id'. simpl. rewrite elem_of_union, elem_of_singleton.
      intros [->|?]; [done|by apply Hwf].
    + intros id' Hid'. unfold Registry.live. simpl.
      case_decide as Hin; [done|].
      rewrite elem_of_union, elem_of_singleton in Hin.
      destruct (Registry.calls (registry (client h)) !! id') as [a'|] eqn:Hcall;
        [|done].
      assert (Registry.live (registry (client h)) id' = Some a') as Hlive'.
      { unfold Registry.live. rewrite decide_False by tauto. done. }
      apply Honly in Hlive'; [|done]. injection Hlive' as -> _. tauto.
  - split; [done|]. split; [done|].
    intros id Hid.
    destruct (Registry.live (registry (client h)) id) as [a|] eqn:Hlive; [|done].
    by apply Honly in Hlive.
Qed.

Lemma subscribeEffect_holds base h :
  wellFormed (registry (client h)) →
  base ≤ length (Registry.calls (registry (client h))) →
  (∀ id a, subscription h = Some (id, a) →
     base ≤ id ∧ Registry.live (registry (client h)) id = Some a) →
  (∀ id a, base ≤ id → Registry.live (registry (client h)) id = Some a →
     subscription h = Some (id, a)) →
  holdsItsSubscription base (subscribeEffect h).
Proof.
  intros Hwf Hbase Hheld Honly.
  destruct (teardown_silences base h Hwf Hheld Honly) as (Hwf' & Hcalls & Hsilent).
  unfold holdsItsSubscription, subscribeEffect.
  destruct (parsed_enabled (parseOptions (options h))) eqn:Hon; simpl.
  - split; [|split; [|split; [|split]]].
    + intros id Hid. simpl in *. rewrite length_app. simpl.
      apply Hwf' in Hid. lia.
    + rewrite length_app, Hcalls. lia.
    + intros id a [= <- <-]. rewrite Hcalls. split; [done|].
      unfold Registry.live. simpl. rewrite decide_False.
      * rewrite <- Hcalls. by rewrite lookup_app_r, Nat.sub_diag.
      * intros Hin%Hwf'. rewrite Hcalls in Hin. lia.
    + intros id a Hid Hlive. unfold Registry.live in Hlive. simpl in Hlive.
      case_decide as Hin; [done|].
      destruct (decide (id < length (Registry.calls (teardown h)))) as [Hlt|Hge].
      * rewrite lookup_app_l in Hlive by done.
        pose proof (Hsilent id Hid) as Hnone. unfold Registry.live in Hnone.
        rewrite decide_False in Hnone by done. congruence.
      * rewrite lookup_app_r in Hlive by lia.
        destruct (id - length (Registry.calls (teardown h))) as [|n] eqn:Hn;
          [|by destruct n].
        injection Hlive as <-. f_equal. f_equal. lia.
    + intros Hoff. simpl in Hon. congruence.
  - split; [done|]. split; [by rewrite Hcalls|]. split; [done|]. split; [|done].
    intros id a Hid Hlive. by rewrite Hsilent in Hlive.
Qed.

Lemma holds_transfer base h h' :
  holdsItsSubscription base h →
  registry (client h') = registry (client h) →
  subscription h' = subscription h →
  options h' = options h →
  holdsItsSubscription base h'.
Proof.
  unfold holdsItsSubscription. by intros Hh -> -> ->.
Qed.

Lemma step_holds base h ev h' :
  holdsItsSubscription base h → step h ev = Some h' →
  holdsItsSubscription base h'.
Proof.
  intros Hh Hstep. pose proof Hh as (Hwf & Hbase & Hheld & Honly & Hoff).
  destruct ev as [a|o|d|e|k r|]; simpl in Hstep.
  - injection Hstep as <-.
    destruct (initialDataEffect_frame (subscribeEffect (setArgs a h)))
      as (_ & Ho & Hc & Hs & _).
    eapply holds_transfer; [|by rewrite Hc|done..].
    by apply subscribeEffect_holds.
  - injection Hstep as <-.
    destruct (initialDataEffect_frame (subscribeEffect (setOptions o h)))
      as (_ & Ho & Hc & Hs & _).
    eapply holds_transfer; [|by rewrite Hc|done..].
    by apply subscribeEffect_holds.
  - apply report_inv in Hstep as (? & ? & _ & _ & ->).
    by eapply holds_transfer.
  - apply report_inv in Hstep as (? & ? & _ & _ & ->).
    by eapply holds_transfer.
  - unfold otherQueryResult in Hstep.
    repeat case_match; simplify_eq; by eapply holds_transfer.
  - injection Hstep as <-.
    destruct (teardown_silences base h Hwf Hheld Honly) as (Hwf' & Hcalls & Hsilent).
    unfold holdsItsSubscription. simpl.
    split; [done|]. split; [by rewrite Hcalls|]. split; [done|]. split; [|done].
    intros id a Hid Hlive. by rewrite Hsilent in Hlive.
Qed.

Lemma mounted_holds c a o :
  wellFormed (registry c) →
  holdsItsSubscription (length (Registry.calls (registry c))) (useQuery c a o).
Proof.
  intros Hwf. unfold useQuery.
  destruct (initialDataEffect_frame (subscribeEffect (setup c a o)))
    as (_ & Ho & Hc & Hs & _).
  eapply holds_transfer; [|by rewrite Hc|done..].
  apply subscribeEffect_holds; simpl; [done|done|done|].
  intros id req Hid Hlive. unfold Registry.live in Hlive.
  case_decide; [done|]. apply lookup_lt_Some in Hlive. lia.
Qed.

Lemma run_holds base evs h h' :
  holdsItsSubscription base h → run h evs = Some h' →
  holdsItsSubscription base h'.
Proof.
  revert h. induction evs as [|ev evs IH]; intros h Hh; simpl.
  - by intros [= <-].
  - destruct (step h ev) as [h1|] eqn:Hstep; [|done].
    apply IH. by eapply step_holds.
Qed.

Lemma run_reachable evs h h' :
  reachable h → run h evs = Some h' → reachable h'.
Proof.
  revert h. induction evs as [|ev evs IH]; intros h Hh; simpl.
  - by intros [= <-].
  - destruct (step h ev) as [h1|] eqn:Hstep; [|done].
    apply IH. by eapply reachable_step.
Qed.

(** X9: a [useQuery] hook never leaks a subscription: after any history, of
    the subscriptions it made the one it holds is the only live one, and that
    one is for the current args. *)
Theorem useQuery_one_live_subscription c a o evs h :
  wellFormed (registry c) →
  run (useQuery c a o) evs = Some h →
  ∀ id req,
    length (Registry.calls (registry c)) ≤ id →
    (Registry.live (registry (client h)) id = Some req ↔
     subscription h = Some (id, req))
    ∧ (Registry.live (registry (client h)) id = Some req →
       req = parseArgs (args h)).
Proof.
  intros Hwf Hrun id req Hid.
  pose proof (run_holds _ _ _ _ (mounted_holds c a o Hwf) Hrun)
    as (_ & _ & Hheld & Honly & _).
  pose proof (run_reachable _ _ _ (reachable_mounted c a o) Hrun)
    as [Hcur _]%reachable_invariant.
  split; [split|].
  - by apply Honly.
  - intros Hsub. by apply Hheld in Hsub as [_ ?].
  - intros Hlive. eapply Hcur. by apply Honly.
Qed.

(** X10: a hook whose [enabled] option resolves to false, and a hook that
    was unmounted, has no live subscription among those it made. *)
Theorem useQuery_silent_when_off c a o evs h :
  wellFormed (registry c) →
  run (useQuery c a o) evs = Some h →
  (parsed_enabled (parseOptions (options h)) = false →
   ∀ id, length (Registry.calls (registry c)) ≤ id →
     Registry.live (registry (client h)) id = None)
  ∧ (∀ h', step h Unmounted = Some h' →
     ∀ id, length (Registry.calls (registry c)) ≤ id →
       Registry.live (registry (client h')) id = None).
Proof.
  intros Hwf Hrun.
  pose proof (run_holds _ _ _ _ (mounted_holds c a o Hwf) Hrun) as Hh.
  split.
  - destruct Hh as (_ & _ & _ & Honly & Hoff).
    intros Hdisabled id Hid.
    destruct (Registry.live (registry (client h)) id) as [req|] eqn:Hlive; [|done].
    apply Honly in Hlive; [|done]. by rewrite Hoff in Hlive.
  - intros h' Hstep id Hid.
    pose proof (step_holds _ _ _ _ Hh Hstep) as (_ & _ & _ & Honly & _).
    destruct (Registry.live (registry (client h')) id) as [req|] eqn:Hlive; [|done].
    apply Honly in Hlive; [|done]. by injection Hstep as <-.
Qed.

End useQuery_subscriptions.

(** * More on [usePaginatedQuery]: requests, errors, loading *)
Section usePaginatedQuery_more.
Import UsePaginatedQuery PageHistory.
Context {Item E Args : Type} `{EqDecision Item}.
Implicit Types (h : Hook Item E Args) (d : PaginationResult.t Item).

(** What one run of the effect body does to the client and the map. *)
Lemma effect_spec h :
  Registry.calls (client (effect h))
  = Registry.calls (client h)
      ++ [{| queryArgs := parseArgs (args h);
             numItems := resolvedNumItems (options h);
             cursor := None |}]
  ∧ options (effect h) = options h
  ∧ args (effect h) = args h
  ∧ subscriptions (effect h) = {[ "initial" := length (Registry.calls (client h)) ]}
  ∧ ∀ id, id ∈ Registry.cancelled (client (effect h)) ↔
          id ∈ Registry.cancelled (client h)
          ∨ ∃ pageKey, subscriptions h !! pageKey = Some id.
Proof.
  destruct (clearSubscriptions_spec h) as (_ & Hcalls & Hcancelled).
  pose (h1 := resetState (clearSubscriptions h)).
  assert (options h1 = options h ∧ args h1 = args h ∧ subscriptions h1 = ∅
          ∧ client h1 = client (clearSubscriptions h))
    as (Hopts & Hargs & Hsubs & Hclient).
  { unfold h1, resetState. by repeat case_match. }
  change (effect h) with (subscribeToPage None (parseArgs (args h)) h1).
  destruct (subscribeToPage_spec None (parseArgs (args h)) h1) as (Hc & Hx & Hs).
  split; [by rewrite Hc, Hclient, Hcalls, Hopts|].
  split; [done|]. split; [done|].
  split; [by rewrite Hs, Hsubs, Hclient, Hcalls|].
  intros id. by rewrite Hx, Hclient.
Qed.

(** Every transition only adds requests, all of the hook's page size, and
    leaves the options alone. *)
Lemma step_requests h (ev : Event (Item := Item) (E := E) (Args := Args)) :
  options (step h ev) = options h
  ∧ ∃ extra,
      Registry.calls (client (step h ev)) = Registry.calls (client h) ++ extra
      ∧ Forall (λ req, numItems req = resolvedNumItems (options h)) extra.
Proof.
  destruct ev as [a|n|id d|id e|].
  - change (step h (ArgsChanged a)) with (effect (clearSubscriptions (setArgs a h))).
    destruct (effect_spec (clearSubscriptions (setArgs a h))) as (Hcalls & Hopts & _).
    destruct (clearSubscriptions_spec (setArgs a h)) as (_ & Hc & _).
    split; [by rewrite Hopts|]. eexists. split.
    + rewrite Hcalls, Hc. done.
    + by repeat constructor.
  - change (step h (LoadMore n)) with (loadMore n h).
    split; [done|]. eexists. split; [by apply loadMore_request|].
    by repeat constructor.
  - simpl. split; [by case_match|]. exists []. rewrite app_nil_r.
    split; [by case_match|done].
  - simpl. split; [by case_match|]. exists []. rewrite app_nil_r.
    split; [by case_match|done].
  - change (step h Unmounted) with (clearSubscriptions h).
    split; [done|]. exists []. rewrite app_nil_r.
    split; [|done]. by destruct (clearSubscriptions_spec h) as (_ & -> & _).
Qed.

(** X11: the page size never changes: after any history, every request the
    hook has made asks for [initialNumItems] items (10 when absent), and the
    first of them is for the first page (cursor null) with the args of the
    mount. *)
Theorem usePaginatedQuery_page_size c a (o : UsePaginatedQueryOptions Item)
    (evs : list (Event (Item := Item) (E := E) (Args := Args))) :
  ∃ first more,
    Registry.calls (client (run (usePaginatedQuery c a o) evs))
    = Registry.calls c ++ first :: more
    ∧ first = {| queryArgs := parseArgs a;
                 numItems := match initialNumItems o with
                             | Some n => n
                             | None => 10%Z
                             end;
                 cursor := None |}
    ∧ Forall (λ req, numItems req = numItems first) more.
Proof.
  destruct (effect_spec (setup (E := E) c a o)) as (Hcalls & Hopts & _).
  assert (∀ (evs : list (Event (Item := Item) (E := E) (Args := Args))) h,
            options h = o →
            ∃ more : list (Request Args),
              Registry.calls (client (run h evs)) = Registry.calls (client h) ++ more
              ∧ Forall (λ req, numItems req = resolvedNumItems o) more) as Hrun.
  { clear. intros evs. unfold run.
    induction evs as [|ev evs IH]; intros h Ho; simpl.
    - exists []. by rewrite app_nil_r.
    - destruct (step_requests h ev) as (Ho' & extra & Hcalls & Hextra).
      rewrite Ho in Ho', Hextra.
      destruct (IH (step h ev) Ho') as (more' & Hcalls' & Hmore').
      exists (extra ++ more'). rewrite Hcalls', Hcalls, <- app_assoc.
      split; [done|]. by apply Forall_app. }
  destruct (Hrun evs (usePaginatedQuery c a o) Hopts) as (more & Hmore & Hsizes).
  eexists _, more. split; [|split; [reflexivity|done]].
  rewrite Hmore. unfold usePaginatedQuery. rewrite Hcalls. simpl.
  by rewrite <- app_assoc.
Qed.

(** X12: errors and pages do not touch each other: an error leaves the
    pages, the results and the status as they are, a delivered page leaves
    [error] as it is, and once set [error] stays set through every event
    until the args change. *)
Theorem usePaginatedQuery_error_sticks h :
  (∀ e, error (onError e h) = Some e
        ∧ pages (onError e h) = pages h
        ∧ results (onError e h) = results h
        ∧ status (onError e h) = status h)
  ∧ (∀ pageKey d, error (onData pageKey d h) = error h)
  ∧ (is_Some (error h) →
     ∀ evs : list (Event (Item := Item) (E := E) (Args := Args)),
       Forall (λ ev, isArgsChanged ev = false) evs →
       is_Some (error (run h evs))).
Proof.
  split; [done|]. split; [done|].
  intros Herr evs. unfold run. revert h Herr.
  induction evs as [|ev evs IH]; intros h Herr Hevs; simpl; [done|].
  apply Forall_cons in Hevs as [Hev Hevs].
  apply IH; [|done].
  destruct ev as [a|n|id d|id e|]; simpl; try done.
  - by case_match.
  - by case_match.
Qed.

Lemma status_none_loading h :
  (∀ pageKey, pagesLoading h !! pageKey ≠ Some true) →
  status h = if isDone h then Exhausted else CanLoadMore.
Proof.
  intros Hnone. destruct (status_cases h) as (_ & _ & Hexhausted & Hcan).
  destruct (isDone h); [by apply Hexhausted|by apply Hcan].
Qed.

(** X13: [loadMore] shows as loading only for a truthy cursor: with a
    non-null, non-empty [nextCursor] the status afterwards is LoadingMore
    (LoadingFirstPage when the first page was loading, or when the cursor is
    the string 'initial'); with [nextCursor] null or empty the subscription
    is made but the status stays what it was. *)
Theorem usePaginatedQuery_loadMore_status numItems h :
  (truthyCursor (nextCursor h) = true →
   status (loadMore numItems h)
   = if bool_decide (pagesLoading h !! "initial" = Some true
                     ∨ nextCursor h = Some "initial")
     then LoadingFirstPage else LoadingMore)
  ∧ (truthyCursor (nextCursor h) = false →
     status (loadMore numItems h) = status h
     ∧ pagesLoading (loadMore numItems h) = pagesLoading h
     ∧ length (Registry.calls (client (loadMore numItems h)))
       = S (length (Registry.calls (client h)))).
Proof.
  split.
  - intros Htruthy.
    destruct (nextCursor h) as [cur|] eqn:Hnext; [|done].
    assert (pagesLoading (loadMore numItems h) = <[cur := true]> (pagesLoading h))
      as Hloading.
    { unfold loadMore, subscribeToPage. by rewrite Hnext, Htruthy. }
    destruct (status_cases (loadMore numItems h)) as (Hfirst & Hmore & _).
    rewrite Hloading in Hfirst, Hmore.
    case_bool_decide as Hcase.
    + apply Hfirst. destruct Hcase as [Hinit|[= ->]].
      * destruct (decide (cur = "initial")) as [->|Hne];
          [apply lookup_insert_eq|by rewrite lookup_insert_ne].
      * apply lookup_insert_eq.
    + apply Hmore. split.
      * destruct (decide (cur = "initial")) as [->|Hne].
        { destruct Hcase. by right. }
        rewrite lookup_insert_ne by done. intros Hinit. apply Hcase. by left.
      * exists cur. apply lookup_insert_eq.
  - intros Hfalsy. unfold loadMore, subscribeToPage, status.
    rewrite Hfalsy. simpl. rewrite length_app. simpl. split; [done|].
    split; [done|lia].
Qed.

Lemma onData_last_loading pageKey d h :
  (∀ other, other ≠ pageKey → pagesLoading h !! other ≠ Some true) →
  status (onData pageKey d h)
  = if PaginationResult.isDone d then Exhausted else CanLoadMore.
Proof.
  intros Hothers.
  change (PaginationResult.isDone d) with (isDone (onData pageKey d h)).
  apply status_none_loading. intros k. simpl.
  destruct (decide (k = pageKey)) as [->|Hne].
  - by rewrite lookup_insert_eq.
  - rewrite lookup_insert_ne by done. by apply Hothers.
Qed.

(** X14: when the page that arrives was the only one still marked loading,
    the status becomes Exhausted or CanLoadMore according to that page's
    [isDone], and the next [loadMore] continues from that page's cursor. *)
Theorem usePaginatedQuery_last_loading_page pageKey d h :
  (∀ other, other ≠ pageKey → pagesLoading h !! other ≠ Some true) →
  status (onData pageKey d h)
  = (if PaginationResult.isDone d then Exhausted else CanLoadMore)
  ∧ nextCursor (onData pageKey d h) = Some (PaginationResult.continueCursor d).
Proof.
  intros Hothers. split; [|done]. by apply onData_last_loading.
Qed.

End usePaginatedQuery_more.

(** * [usePaginatedQuery]: hydration, cursors, and the life of subscriptions *)
Section usePaginatedQuery_lifecycle.
Import UsePaginatedQuery PageHistory.
Context {Item E Args : Type} `{EqDecision Item}.
Implicit Types (h : Hook Item E Args) (d : PaginationResult.t Item).

Lemma mounted_with_initialData c a (o : UsePaginatedQueryOptions Item) i :
  initialData o = Some i →
  pages (usePaginatedQuery (E := E) (Args := Args) c a o) = [i]
  ∧ pagesLoading (usePaginatedQuery (E := E) (Args := Args) c a o)
    = {[ "initial" := false ]}
  ∧ isDone (usePaginatedQuery (E := E) (Args := Args) c a o)
    = PaginationResult.isDone i
  ∧ nextCursor (usePaginatedQuery (E := E) (Args := Args) c a o)
    = Some (PaginationResult.continueCursor i).
Proof.
  intros Hi. unfold usePaginatedQuery, effect, subscribeToPage, resetState.
  simpl. by rewrite Hi.
Qed.

(** X15: hydration: a hook mounted with [initialData] shows its items at
    once, with status Exhausted or CanLoadMore according to its [isDone], and
    still subscribes to the first page; when that subscription delivers a page
    with the cursor of [initialData], the page takes its place and its items
    are shown once. *)
Theorem usePaginatedQuery_hydration c a (o : UsePaginatedQueryOptions Item) i :
  initialData o = Some i →
  let h := usePaginatedQuery (E := E) (Args := Args) c a o in
  results h = PaginationResult.page i
  ∧ status h = (if PaginationResult.isDone i then Exhausted else CanLoadMore)
  ∧ last (Registry.calls (client h))
    = Some {| queryArgs := parseArgs a;
              numItems := resolvedNumItems o;
              cursor := None |}
  ∧ ∀ d, PaginationResult.continueCursor d = PaginationResult.continueCursor i →
      pages (onData "initial" d h) = [d]
      ∧ results (onData "initial" d h) = PaginationResult.page d
      ∧ status (onData "initial" d h)
        = (if PaginationResult.isDone d then Exhausted else CanLoadMore).
Proof.
  intros Hi h.
  destruct (mounted_with_initialData c a o i Hi) as (Hpages & Hloading & Hdone & Hnext).
  fold h in Hpages, Hloading, Hdone, Hnext.
  assert (∀ pageKey, pagesLoading h !! pageKey ≠ Some true) as Hnone.
  { intros k. rewrite Hloading. intros [_ [=]]%lookup_singleton_Some. }
  split; [|split; [|split]].
  - unfold results. rewrite Hpages. simpl. by rewrite app_nil_r.
  - rewrite <- Hdone. by apply status_none_loading.
  - destruct (effect_spec (setup (E := E) c a o)) as (Hcalls & _).
    unfold h, usePaginatedQuery. rewrite Hcalls. apply last_snoc.
  - intros d Hcursor.
    assert (pages (onData "initial" d h) = [d]) as Hreplaced.
    { rewrite onData_pages, Hpages. simpl. by rewrite decide_True. }
    split; [done|]. split.
    + unfold results. rewrite Hreplaced. simpl. by rewrite app_nil_r.
    + apply onData_last_loading.
      intros other _. apply Hnone.
Qed.

Lemma delivered_is_stored pageKey d h :
  d ∈ pages (onData pageKey d h).
Proof.
  rewrite onData_pages.
  destruct (list_find _ (pages h)) as [[i old]|] eqn:Hfind.
  - apply list_find_Some in Hfind as (Hi & _ & _).
    apply list_elem_of_insert. by eapply lookup_lt_Some.
  - apply elem_of_app. right. by apply list_elem_of_singleton.
Qed.

Lemma step_cursorOfStoredPage h
    (ev : Event (Item := Item) (E := E) (Args := Args)) :
  cursorOfStoredPage h → cursorOfStoredPage (step h ev).
Proof.
  intros Hh. destruct ev as [a|n|id d|id e|].
  - change (step h (ArgsChanged a)) with (effect (clearSubscriptions (setArgs a h))).
    unfold cursorOfStoredPage, effect, subscribeToPage, resetState. simpl.
    destruct (isFirstRender h), (initialData (options h)) as [i|]; simpl;
      try (split; [done|by intros ? [=]]).
    split; [done|]. intros cur [= <-]. exists i. split; [|done].
    by apply list_elem_of_singleton.
  - exact Hh.
  - simpl. destruct (Registry.live (client h) id); [|done].
    pose proof (delivered_is_stored (pageKeyOf (cursor r)) d h) as Hin.
    split.
    + split; [done|]. intros Hnil. rewrite Hnil in Hin. by apply elem_of_nil in Hin.
    + intros cur [= <-]. eauto.
  - simpl. by destruct (Registry.live (client h) id).
  - exact Hh.
Qed.

(** X16: the cursor bookkeeping of a mounted hook: stored pages have
    pairwise different cursors, [nextCursor] is null exactly as long as no
    page is stored, and otherwise it is the cursor of one of the stored
    pages. *)
Theorem usePaginatedQuery_cursor_bookkeeping c a (o : UsePaginatedQueryOptions Item)
    (evs : list (Event (Item := Item) (E := E) (Args := Args))) :
  let h := run (usePaginatedQuery c a o) evs in
  NoDup (PaginationResult.continueCursor <$> pages h)
  ∧ (nextCursor h = None ↔ pages h = [])
  ∧ ∀ cur, nextCursor h = Some cur →
      ∃ page, page ∈ pages h ∧ PaginationResult.continueCursor page = cur.
Proof.
  intros h. split; [apply run_distinctCursors|].
  assert (cursorOfStoredPage (usePaginatedQuery (E := E) (Args := Args) c a o))
    as Hmount.
  { unfold cursorOfStoredPage, usePaginatedQuery, effect, subscribeToPage,
      resetState. simpl.
    destruct (initialData o) as [i|]; simpl; [|split; [done|by intros ? [=]]].
    split; [done|]. intros cur [= <-]. exists i. split; [|done].
    by apply list_elem_of_singleton. }
  unfold h, run. revert Hmount. generalize (usePaginatedQuery (E := E) c a o).
  induction evs as [|ev evs IH]; intros h0 Hh0; simpl; [done|].
  by apply IH, step_cursorOfStoredPage.
Qed.

Lemma step_tracks base h (ev : Event (Item := Item) (E := E) (Args := Args)) :
  tracksItsSubscriptions base h →
  match ev with
  | LoadMore _ => subscriptions h !! pageKeyOf (nextCursor h) = None
  | _ => True
  end →
  tracksItsSubscriptions base (step h ev).
Proof.
  intros Hh Hfree. destruct ev as [a|n|id d|id e|].
  - change (step h (ArgsChanged a)) with (effect (clearSubscriptions (setArgs a h))).
    destruct (effect_spec (clearSubscriptions (setArgs a h)))
      as (Hcalls & _ & _ & Hsubs & Hcancelled).
    destruct (clearSubscriptions_spec (setArgs a h)) as (_ & Hc & Hx).
    intros id Hbase Hlt Hlive.
    rewrite Hcalls, Hc, length_app in Hlt. simpl in Hlt.
    rewrite Hsubs, Hc.
    destruct (decide (id = length (Registry.calls (client h)))) as [->|Hne].
    + exists "initial". apply lookup_singleton_eq.
    + destruct Hlive. apply Hcancelled. left. apply Hx.
      destruct (decide (id ∈ Registry.cancelled (client h))) as [?|Hnot];
        [by left|right].
      apply (Hh id Hbase); [simpl in *; lia|done].
  - change (step h (LoadMore n)) with (loadMore n h).
    destruct (subscribeToPage_spec (nextCursor h) (parseArgs (args h)) h)
      as (Hcalls & Hcancelled & Hsubs).
    intros id Hbase Hlt Hlive. unfold loadMore in *.
    rewrite Hcalls, length_app in Hlt. simpl in Hlt.
    rewrite Hcancelled in Hlive. rewrite Hsubs.
    destruct (decide (id = length (Registry.calls (client h)))) as [->|Hne].
    + eexists. apply lookup_insert_eq.
    + destruct (Hh id Hbase) as [k Hk]; [lia|done|].
      exists k. rewrite lookup_insert_ne; [done|]. intros <-. congruence.
  - simpl. by destruct (Registry.live (client h) id).
  - simpl. by destruct (Registry.live (client h) id).
  - change (step h Unmounted) with (clearSubscriptions h).
    destruct (clearSubscriptions_spec h) as (_ & Hc & Hx).
    intros id Hbase Hlt Hlive. rewrite Hc in Hlt. destruct Hlive.
    apply Hx.
    destruct (decide (id ∈ Registry.cancelled (client h))) as [?|Hnot];
      [by left|right].
    by apply (Hh id Hbase).
Qed.

Lemma run_tracks base (evs : list (Event (Item := Item) (E := E) (Args := Args))) h :
  tracksItsSubscriptions base h → neverReplaces h evs →
  tracksItsSubscriptions base (run h evs).
Proof.
  unfold run. revert h.
  induction evs as [|ev evs IH]; intros h Hh Hnever; simpl; [done|].
  destruct Hnever as [Hfree Hnever].
  apply IH; [|done]. apply step_tracks; [done|]. by destruct ev.
Qed.

Lemma mounted_tracks c a (o : UsePaginatedQueryOptions Item) :
  tracksItsSubscriptions (length (Registry.calls c))
    (usePaginatedQuery (E := E) (Args := Args) c a o).
Proof.
  destruct (effect_spec (setup (E := E) c a o)) as (Hcalls & _ & _ & Hsubs & _).
  intros id Hbase Hlt _. unfold usePaginatedQuery in *.
  rewrite Hcalls, length_app in Hlt. simpl in Hlt.
  rewrite Hsubs. simpl. exists "initial".
  replace id with (length (Registry.calls c)) by lia. apply lookup_singleton_eq.
Qed.

(** The client names only subscriptions it has handed out, and so does the
    map of the hook. *)
Lemma step_knownSubscriptions h (ev : Event (Item := Item) (E := E) (Args := Args)) :
  QueryHistory.wellFormed (client h)
  ∧ (∀ pageKey id, subscriptions h !! pageKey = Some id →
       id < length (Registry.calls (client h))) →
  QueryHistory.wellFormed (client (step h ev))
  ∧ (∀ pageKey id, subscriptions (step h ev) !! pageKey = Some id →
       id < length (Registry.calls (client (step h ev)))).
Proof.
  intros [Hwf Hsubs]. destruct ev as [a|n|id d|id e|].
  - change (step h (ArgsChanged a)) with (effect (clearSubscriptions (setArgs a h))).
    destruct (effect_spec (clearSubscriptions (setArgs a h)))
      as (Hcalls & _ & _ & Hmap & Hcancelled).
    destruct (clearSubscriptions_spec (setArgs a h)) as (Hempty & Hc & Hx).
    change (client (setArgs a h)) with (client h) in *.
    change (subscriptions (setArgs a h)) with (subscriptions h) in *.
    unfold QueryHistory.wellFormed.
    rewrite Hcalls, Hc, length_app. cbn [length]. split.
    + intros id [Hid|[k Hk]]%Hcancelled.
      * apply Hx in Hid as [Hid|[k Hk]].
        -- specialize (Hwf id Hid). lia.
        -- specialize (Hsubs k id Hk). lia.
      * by rewrite Hempty in Hk.
    + intros k id. rewrite Hmap, Hc. intros [_ <-]%lookup_singleton_Some. lia.
  - change (step h (LoadMore n)) with (loadMore n h).
    destruct (subscribeToPage_spec (nextCursor h) (parseArgs (args h)) h)
      as (Hcalls & Hcancelled & Hmap).
    unfold loadMore, QueryHistory.wellFormed.
    rewrite Hcalls, length_app. cbn [length]. split.
    + intros id Hid. rewrite Hcancelled in Hid. specialize (Hwf id Hid). lia.
    + intros k id. rewrite Hmap.
      destruct (decide (k = pageKeyOf (nextCursor h))) as [->|Hne].
      * rewrite lookup_insert_eq. intros [= <-]. lia.
      * rewrite lookup_insert_ne by done. intros Hk.
        specialize (Hsubs k id Hk). lia.
  - simpl. by destruct (Registry.live (client h) id).
  - simpl. by destruct (Registry.live (client h) id).
  - change (step h Unmounted) with (clearSubscriptions h).
    destruct (clearSubscriptions_spec h) as (Hempty & Hc & Hx).
    unfold QueryHistory.wellFormed. rewrite Hc. split.
    + intros id [Hid|[k Hk]]%Hx; [by apply Hwf|by eapply Hsubs].
    + intros k id. by rewrite Hempty.
Qed.

Lemma run_knownSubscriptions c a (o : UsePaginatedQueryOptions Item)
    (evs : list (Event (Item := Item) (E := E) (Args := Args))) :
  QueryHistory.wellFormed c →
  let h := run (usePaginatedQuery c a o) evs in
  QueryHistory.wellFormed (client h)
  ∧ (∀ pageKey id, subscriptions h !! pageKey = Some id →
       id < length (Registry.calls (client h))).
Proof.
  intros Hwf h.
  assert (QueryHistory.wellFormed (client (usePaginatedQuery (E := E) c a o))
          ∧ (∀ pageKey id,
               subscriptions (usePaginatedQuery (E := E) c a o) !! pageKey = Some id →
               id < length (Registry.calls
                              (client (usePaginatedQuery (E := E) c a o)))))
    as Hmount.
  { destruct (effect_spec (setup (E := E) c a o))
      as (Hcalls & _ & _ & Hmap & Hcancelled).
    change (client (setup c a o)) with c in *.
    unfold usePaginatedQuery, QueryHistory.wellFormed.
    rewrite Hcalls, length_app. cbn [length]. split.
    - intros id [Hid|[k Hk]]%Hcancelled; [|done].
      specialize (Hwf id Hid). lia.
    - intros k id. rewrite Hmap. intros [_ <-]%lookup_singleton_Some. lia. }
  unfold h, run. revert Hmount. generalize (usePaginatedQuery (E := E) c a o).
  induction evs as [|ev evs IH]; intros h0 Hh0; simpl; [done|].
  by apply IH, step_knownSubscriptions.
Qed.

(** X17: without a [loadMore] that stores over an existing page key, the
    hook keeps track of all its subscriptions: every live one it made is in
    the map; so after an args change exactly one of them is live, the new
    first-page subscription with the new args, and after an unmount none
    is. *)
Theorem usePaginatedQuery_no_leak_unless_replaced c a
    (o : UsePaginatedQueryOptions Item)
    (evs : list (Event (Item := Item) (E := E) (Args := Args))) :
  QueryHistory.wellFormed c →
  neverReplaces (usePaginatedQuery c a o) evs →
  let h := run (usePaginatedQuery c a o) evs in
  (∀ id req, length (Registry.calls c) ≤ id →
     Registry.live (client h) id = Some req →
     ∃ pageKey, subscriptions h !! pageKey = Some id)
  ∧ (∀ a' id req, length (Registry.calls c) ≤ id →
       Registry.live (client (step h (ArgsChanged a'))) id = Some req
       ↔ id = length (Registry.calls (client h))
         ∧ req = {| queryArgs := parseArgs a';
                    numItems := resolvedNumItems o;
                    cursor := None |})
  ∧ (∀ id, length (Registry.calls c) ≤ id →
       Registry.live (client (step h Unmounted)) id = None).
Proof.
  intros Hwf Hnever h.
  pose proof (run_tracks _ evs _ (mounted_tracks c a o) Hnever) as Hh.
  fold h in Hh.
  destruct (run_knownSubscriptions c a o evs Hwf) as [Hknown Hstored].
  fold h in Hknown, Hstored.
  assert (∀ h' : Hook Item E Args,
            tracksItsSubscriptions (length (Registry.calls c)) h' →
            ∀ id req, length (Registry.calls c) ≤ id →
              Registry.live (client h') id = Some req →
              ∃ pageKey, subscriptions h' !! pageKey = Some id) as Hlive.
  { intros h' Hh' id req Hbase Hl. unfold Registry.live in Hl.
    case_decide; [done|]. apply (Hh' id Hbase); [|done].
    by eapply lookup_lt_Some. }
  assert (options h = o) as Hopts.
  { clear. unfold h, run.
    assert (options (usePaginatedQuery (E := E) (Args := Args) c a o) = o) as Ho.
    { by destruct (effect_spec (setup (E := E) (Args := Args) c a o))
        as (_ & Ho & _). }
    revert Ho. generalize (usePaginatedQuery (E := E) c a o).
    induction evs as [|ev evs IH]; intros h0 Ho; simpl; [done|].
    apply IH. by destruct (step_requests h0 ev) as [-> _]. }
  split; [by apply Hlive|]. split.
  - intros a' id req Hbase.
    pose proof (step_tracks _ h (ArgsChanged a') Hh I) as Hh'.
    change (step h (ArgsChanged a')) with (effect (clearSubscriptions (setArgs a' h)))
      in *.
    destruct (effect_spec (clearSubscriptions (setArgs a' h)))
      as (Hcalls & _ & _ & Hsubs & Hcancelled).
    destruct (clearSubscriptions_spec (setArgs a' h)) as (Hempty & Hc & Hx).
    assert (Registry.live (client (effect (clearSubscriptions (setArgs a' h))))
              (length (Registry.calls (client h)))
            = Some {| queryArgs := parseArgs a'; numItems := resolvedNumItems o;
                      cursor := None |}) as Hnew.
    { unfold Registry.live. rewrite decide_False.
      - rewrite Hcalls, Hc. simpl.
        by rewrite lookup_app_r, Nat.sub_diag, Hopts by done.
      - intros [Hid|[k Hk]]%Hcancelled; [|by rewrite Hempty in Hk].
        apply Hx in Hid as [Hid|[k Hk]].
        + specialize (Hknown _ Hid). simpl in *. lia.
        + specialize (Hstored _ _ Hk). simpl in *. lia. }
    split.
    + intros Hl. destruct (Hlive _ Hh' id req Hbase Hl) as [k Hk].
      rewrite Hsubs, Hc in Hk. apply lookup_singleton_Some in Hk as [_ <-].
      split; [done|]. simpl in Hl, Hnew. congruence.
    + by intros [-> ->].
  - intros id Hbase.
    pose proof (step_tracks _ h Unmounted Hh I) as Hh'.
    destruct (Registry.live (client (step h Unmounted)) id) as [req|] eqn:Hl;
      [|done].
    by destruct (Hlive _ Hh' id req Hbase Hl) as [k Hk].
Qed.

(** X18: unmounting leaves what the hook shows as it is, empties the map
    and unsubscribes every subscription stored in it: whatever the client
    would still deliver to one of them changes nothing. *)
Theorem usePaginatedQuery_unmount h :
  results (teardown h) = results h
  ∧ status (teardown h) = status h
  ∧ error (teardown h) = error h
  ∧ subscriptions (teardown h) = ∅
  ∧ ∀ pageKey id, subscriptions h !! pageKey = Some id →
      Registry.live (client (teardown h)) id = None
      ∧ (∀ d, step (teardown h) (PageData id d) = teardown h)
      ∧ (∀ e, step (teardown h) (PageError id e) = teardown h).
Proof.
  split; [done|]. split; [done|]. split; [done|]. split; [done|].
  intros k id Hk.
  assert (Registry.live (client (teardown h)) id = None) as Hsilent.
  { destruct (clearSubscriptions_spec h) as (_ & _ & Hx).
    unfold Registry.live, teardown. rewrite decide_True; [done|].
    apply Hx. right. eauto. }
  split; [done|]. split; intros; unfold step; by rewrite Hsilent.
Qed.

End usePaginatedQuery_lifecycle.

(** * The chat page on top of [usePaginatedQuery] *)
Section chat_page.
Import UsePaginatedQuery PageHistory ChatPage.
Context {Item E Args : Type} `{EqDecision Item}.
Implicit Types (h : Hook Item E Args).

Lemma run_options (evs : list (Event (Item := Item) (E := E) (Args := Args))) h :
  options (run h evs) = options h.
Proof.
  unfold run. revert h.
  induction evs as [|ev evs IH]; intros h; simpl; [done|].
  rewrite IH. by destruct (step_requests h ev) as [-> _].
Qed.

Lemma step_keeps_first_load h (ev : Event (Item := Item) (E := E) (Args := Args)) :
  pagesLoading h !! "initial" = Some true → isFirstRender h = false →
  isPageData ev = false →
  pagesLoading (step h ev) !! "initial" = Some true
  ∧ isFirstRender (step h ev) = false.
Proof.
  intros Hloading Hfirst Hev. destruct ev as [a|n|id d|id e|]; try done.
  - change (step h (ArgsChanged a)) with (effect (clearSubscriptions (setArgs a h))).
    unfold effect, subscribeToPage, resetState. simpl. rewrite Hfirst. simpl.
    split; [apply lookup_singleton_eq|done].
  - change (step h (LoadMore n)) with (loadMore n h).
    unfold loadMore, subscribeToPage. simpl. split; [|done].
    destruct (truthyCursor (nextCursor h)); [|done].
    destruct (decide (pageKeyOf (nextCursor h) = "initial")) as [->|Hne];
      [apply lookup_insert_eq|by rewrite lookup_insert_ne].
  - simpl. by destruct (Registry.live (client h) id).
Qed.



End chat_page.

(** * [setupConvex], the context and the entry of [useQuery] *)
Section setup_facts.
Import Setup.
Context {O ConvexClient : Type}.

(** X21: [setupConvex] throws its own error for a [url] that is not a
    non-empty string, without making a client.  Otherwise it hands the
    constructor the address and the options, where [disabled] is that of
    [options] when [options] has the property (also with the value
    [undefined]) and [!BROWSER] when it has not; an error of the constructor
    is passed on and the context is left alone; a client that was made is put
    into the context, where [useConvexClient] finds it, and no other key
    changes.  In a context without a client [useConvexClient] throws its
    error. *)
Theorem setupConvex_provides_client
    (newConvexClient : string → OptionsWithDefaults O → string + ConvexClient)
    BROWSER url (options : ConvexClientOptions O)
    (context : gmap string ConvexClient) :
  (rejectedUrl url = true →
   setupConvex newConvexClient BROWSER url options context = inl urlMessage)
  ∧ (∀ s, url = UrlString s → s ≠ "" →
       let given :=
         {| disabled := match disabledOption options with
                        | Some undefinedOrBoolean => undefinedOrBoolean
                        | None => Some (negb BROWSER)
                        end;
            others := otherOptions options |} in
       (∀ message, newConvexClient s given = inl message →
          setupConvex newConvexClient BROWSER url options context = inl message)
       ∧ (∀ client, newConvexClient s given = inr client →
            ∃ context',
              setupConvex newConvexClient BROWSER url options context
              = inr context'
              ∧ useConvexClient context' = inr client
              ∧ ∀ key, key ≠ _contextKey → context' !! key = context !! key))
  ∧ (useConvexClient context = inl noClientMessage
     ↔ context !! _contextKey = None).
Proof.
  split; [|split].
  - intros Hurl. unfold setupConvex. by rewrite Hurl.
  - intros s -> Hs given. unfold setupConvex, rejectedUrl.
    destruct (String.eqb_spec s "") as [->|_]; [done|].
    fold given. change (optionsWithDefaults BROWSER options) with given.
    split.
    + by intros message ->.
    + intros client ->. eexists. split; [done|]. split.
      * unfold useConvexClient, setConvexClientContext. by rewrite lookup_insert_eq.
      * intros key Hkey. unfold setConvexClientContext. by rewrite lookup_insert_ne.
  - unfold useConvexClient. by destruct (context !! _contextKey).
Qed.

End setup_facts.

(** * The demo backend *)
Section messages_facts.
Import Messages.

(** X23: muting in [list] only removes messages: cursor and [isDone] of the
    page stay as [paginate] gave them, the page is a sublist with exactly the
    messages that contain none of the mute words, and without mute words
    (absent or empty) the page is returned unchanged. *)
Theorem list_mutes_messages (includesIgnoringCase : string → string → bool)
    (results : PaginationResult.t Message) (muteWords : option (list string)) :
  let out := listHandler includesIgnoringCase results muteWords in
  let words := match muteWords with Some words => words | None => [] end in
  PaginationResult.continueCursor out = PaginationResult.continueCursor results
  ∧ PaginationResult.isDone out = PaginationResult.isDone results
  ∧ PaginationResult.page out `sublist_of` PaginationResult.page results
  ∧ (∀ message, message ∈ PaginationResult.page out ↔
       message ∈ PaginationResult.page results
       ∧ ∀ word, word ∈ words →
           includesIgnoringCase (body message) word = false)
  ∧ (words = [] → out = results).
Proof.
  intros out words. unfold out, listHandler. fold words.
  assert (∀ message, muted includesIgnoringCase words message = false ↔
            ∀ word, word ∈ words →
              includesIgnoringCase (body message) word = false) as Hmuted.
  { intros message. unfold muted. split.
    - intros Hnone word Hin.
      destruct (includesIgnoringCase (body message) word) eqn:Hw; [|done].
      assert (existsb (λ w, includesIgnoringCase (body message) w) words = true)
        as Hex; [|congruence].
      apply existsb_exists. exists word. split; [|done]. by apply list_elem_of_In.
    - intros Hall.
      destruct (existsb _ words) eqn:Hex; [|done].
      apply existsb_exists in Hex as (word & Hin%list_elem_of_In & Hw).
      by rewrite Hall in Hw. }
  destruct (0 <? length words)%nat eqn:Hlen;
    cbn [PaginationResult.page PaginationResult.isDone
         PaginationResult.continueCursor].
  - split; [done|]. split; [done|]. split; [apply sublist_filter|]. split.
    + intros message. rewrite list_elem_of_filter, Hmuted. tauto.
    + intros Hnil. by rewrite Hnil in Hlen.
  - assert (words = []) as Hnil.
    { apply Nat.ltb_ge in Hlen. destruct words; [done|simpl in Hlen; lia]. }
    split; [done|]. split; [done|]. split; [done|]. split; [|done].
    intros message. split; [|by intros [? _]].
    intros Hin. split; [done|]. rewrite Hnil. by intros ? ?%elem_of_nil.
Qed.

Lemma batchSizes_enough fuel i totalMessages :
  (totalMessages - i ≤ 5 * Z.of_nat fuel)%Z →
  inserted (batchSizes fuel i totalMessages) = Z.max 0 (totalMessages - i)
  ∧ Forall (λ size, 1 ≤ size ≤ 5)%Z (batchSizes fuel i totalMessages)
  ∧ ∀ fuel', (totalMessages - i ≤ 5 * Z.of_nat fuel')%Z →
      batchSizes fuel' i totalMessages = batchSizes fuel i totalMessages.
Proof.
  revert i. induction fuel as [|fuel IH]; intros i Hfuel; simpl.
  - split; [unfold inserted; simpl; lia|]. split; [done|].
    intros [|fuel'] _; simpl; [done|].
    destruct (Z.ltb_spec i totalMessages); [lia|done].
  - destruct (Z.ltb_spec i totalMessages) as [Hlt|Hge].
    + destruct (IH (i + 5)%Z) as (Hsum & Hsizes & Hindep); [lia|].
      split; [unfold inserted in *; simpl; lia|].
      split; [constructor; [lia|done]|].
      intros [|fuel'] Hfuel'; simpl; [lia|].
      destruct (Z.ltb_spec i totalMessages); [|lia].
      f_equal. apply Hindep. lia.
    + split; [unfold inserted; simpl; lia|]. split; [done|].
      intros [|fuel'] _; simpl; [done|].
      destruct (Z.ltb_spec i totalMessages); [lia|done].
Qed.

(** X24: [seed] does nothing on a table of 10000 messages or more;
    otherwise its loop ends and fills the table up to 200 messages, in batches
    of one to five, and inserts nothing into a table that already has 200. *)
Theorem seed_fills_up_to_200 existing :
  (0 ≤ existing)%Z →
  (10000 ≤ existing → seed existing = None)%Z
  ∧ (existing < 10000 →
     ∃ sizes,
       seed existing = Some sizes
       ∧ existing + inserted sizes = Z.max existing 200
       ∧ Forall (λ size, 1 ≤ size ≤ 5) sizes
       ∧ (200 ≤ existing → sizes = [])
       ∧ ∀ fuel, (Z.to_nat (200 - existing) ≤ fuel)%nat →
           batchSizes fuel 0 (200 - existing) = sizes)%Z.
Proof.
  intros Hexisting. unfold seed. split.
  - intros Hmany. by destruct (Z.leb_spec 10000 existing); [|lia].
  - intros Hfew. destruct (Z.leb_spec 10000 existing); [lia|].
    destruct (batchSizes_enough (Z.to_nat (200 - existing)) 0 (200 - existing))
      as (Hsum & Hsizes & Hindep); [lia|].
    eexists. split; [done|]. split; [lia|]. split; [done|]. split.
    + intros Hfull.
      destruct (batchSizes _ 0 (200 - existing)) as [|size sizes]; [done|].
      apply Forall_cons in Hsizes as [Hsize Hsizes].
      assert (0 ≤ inserted sizes)%Z.
      { clear -Hsizes. induction Hsizes; unfold inserted in *; simpl; lia. }
      unfold inserted in *. simpl in Hsum. lia.
    + intros fuel Hfuel. apply Hindep. lia.
Qed.

End messages_facts.

(** * [usePaginatedQuery]: what deliveries do to the page list *)
Section usePaginatedQuery_pages.
Import UsePaginatedQuery PageHistory.
Context {Item E Args : Type} `{EqDecision Item}.
Implicit Types (h : Hook Item E Args) (d : PaginationResult.t Item).

Lemma onData_finds_delivered pageKey d h :
  ∃ i, list_find (λ page, PaginationResult.continueCursor page
                          = PaginationResult.continueCursor d)
         (pages (onData pageKey d h)) = Some (i, d).
Proof.
  rewrite onData_pages.
  destruct (list_find _ (pages h)) as [[i old]|] eqn:Hfind.
  - apply list_find_Some in Hfind as (Hi & Hcur & Hfirst).
    exists i. apply list_find_Some. split; [|split; [done|]].
    + apply list_lookup_insert_eq. by eapply lookup_lt_Some.
    + intros j page Hj Hlt. rewrite list_lookup_insert_ne in Hj by lia.
      by apply (Hfirst j).
  - apply list_find_None in Hfind. rewrite Forall_forall in Hfind.
    exists (length (pages h)). apply list_find_Some. split; [|split; [done|]].
    + by rewrite lookup_app_r, Nat.sub_diag.
    + intros j page Hj Hlt. rewrite lookup_app_l in Hj by done.
      apply Hfind. by eapply list_elem_of_lookup_2.
Qed.

(** X25: delivering the same page twice is the same as delivering it once:
    the second delivery changes nothing at all. *)
Theorem usePaginatedQuery_delivery_idempotent pageKey d h :
  onData pageKey d (onData pageKey d h) = onData pageKey d h.
Proof.
  destruct (onData_finds_delivered pageKey d h) as [i Hfind].
  unfold onData at 1. rewrite Hfind, bool_decide_eq_true_2 by done.
  simpl. by rewrite insert_insert_eq.
Qed.

Lemma step_keeps_positions h (ev : Event (Item := Item) (E := E) (Args := Args)) :
  isArgsChanged ev = false →
  (PaginationResult.continueCursor <$> pages h)
    `prefix_of` (PaginationResult.continueCursor <$> pages (step h ev)).
Proof.
  intros Hev. destruct ev as [a|n|id d|id e|]; try done.
  - simpl. destruct (Registry.live (client h) id); [|done].
    rewrite onData_pages.
    destruct (list_find _ (pages h)) as [[i old]|] eqn:Hfind.
    + apply list_find_Some in Hfind as (Hi & Hcur & _). simpl in Hcur.
      rewrite list_fmap_insert, <- Hcur.
      replace (<[i:=PaginationResult.continueCursor old]>
                 (PaginationResult.continueCursor <$> pages h))
        with (PaginationResult.continueCursor <$> pages h); [done|].
      symmetry. apply list_insert_id. by rewrite list_lookup_fmap, Hi.
    + rewrite fmap_app. by apply prefix_app_r.
  - simpl. by destruct (Registry.live (client h) id).
Qed.

(** X26: as long as the args do not change, a stored page keeps its place:
    the cursors of the stored pages, in order, are a prefix of what they are
    after any further events, so pages are only updated in place or added at
    the end, never dropped or moved. *)
Theorem usePaginatedQuery_pages_keep_position h
    (evs : list (Event (Item := Item) (E := E) (Args := Args))) :
  Forall (λ ev, isArgsChanged ev = false) evs →
  (PaginationResult.continueCursor <$> pages h)
    `prefix_of` (PaginationResult.continueCursor <$> pages (run h evs))
  ∧ length (pages h) ≤ length (pages (run h evs)).
Proof.
  intros Hevs.
  assert ((PaginationResult.continueCursor <$> pages h)
            `prefix_of` (PaginationResult.continueCursor <$> pages (run h evs)))
    as Hprefix.
  { unfold run. revert h.
    induction Hevs as [|ev evs Hev _ IH]; intros h; simpl; [done|].
    etrans; [by apply step_keeps_positions|apply IH]. }
  split; [done|].
  apply prefix_length in Hprefix. by rewrite !length_fmap in Hprefix.
Qed.

End usePaginatedQuery_pages.

(** * The added properties on the chat application *)
Section more_on_chat.
Import Chat Scenes.

Section queries.
Import UseQuery QueryHistory.

Lemma secondUserShown_reachable : Memo.reachable secondUserShown.
Proof.
  apply (memo_run_reachable answeredThenOn (shown noOptions)); [constructor|].
  vm_compute; reflexivity.
Qed.

Lemma useQuery_data_forwarded_witness :
  state_result (state (Memo.hook secondUserShown)) = Value (JsNumber 5)
  ∧ Memo.isLoading secondUserShown = true
  ∧ ∃ m', Memo.step secondUserShown (ServerData (JsNumber 6)) = Some m'
        ∧ Memo.data m' = Some (JsNumber 6) ∧ Memo.error m' = None
        ∧ Memo.isLoading m' = false ∧ Memo.isStale m' = false.
Proof.
  split; [vm_compute; reflexivity|]. split; [vm_compute; reflexivity|].
  destruct (Memo.step secondUserShown (ServerData (JsNumber 6))) as [m'|] eqn:Hstep;
    [|by vm_compute in Hstep].
  exists m'. split; [done|].
  apply (useQuery_data_forwarded secondUserShown (JsNumber 6) m');
    [apply secondUserShown_reachable|exact Hstep|].
  left. vm_compute; reflexivity.
Defined.

Lemma useQuery_equal_answer_unnoticed_witness :
  ∃ m', Memo.step secondUserShown (ServerData (JsNumber 5)) = Some m'
      ∧ localQueryResult (client (Memo.hook m')) (userArgs 2) = Value (JsNumber 5)
      ∧ Memo.data m' = None ∧ Memo.error m' = None ∧ Memo.isLoading m' = true.
Proof.
  destruct (Memo.step secondUserShown (ServerData (JsNumber 5))) as [m'|] eqn:Hstep;
    [|by vm_compute in Hstep].
  exists m'. split; [done|].
  destruct (useQuery_equal_answer_unnoticed secondUserShown (JsNumber 5) m')
    as (_ & Hclient & _ & Herror & _ & Hshown).
  - apply secondUserShown_reachable.
  - exact Hstep.
  - vm_compute; reflexivity.
  - vm_compute; reflexivity.
  - split; [|split; [exact (proj1 Hshown)|split; [exact Herror|exact (proj2 Hshown)]]].
    rewrite <-Hclient. f_equal.
    injection Hstep as <-. reflexivity.
Defined.

Lemma useQuery_loading_shape_witness :
  isLoading (mounted noOptions) = true
  ∧ data (mounted noOptions) = None ∧ error (mounted noOptions) = None
  ∧ isStale (mounted noOptions) = false.
Proof.
  assert (isLoading (mounted noOptions) = true) as Hloading
    by (vm_compute; reflexivity).
  split; [exact Hloading|].
  exact (proj2 (useQuery_loading_shape (mounted noOptions) Hloading)).
Defined.


Lemma useQuery_initialData_shown_witness :
  data (useQuery serverClient (Given (userArgs 1)) (Given hydrated))
  = Some (JsNumber 7)
  ∧ isLoading (useQuery serverClient (Given (userArgs 1)) (Given hydrated)) = false.
Proof.
  destruct (useQuery_initialData_shown serverClient (Given (userArgs 1))
              (Given hydrated) (JsNumber 7))
    as (Hdata & _ & Hload & _); [reflexivity..|].
  split; [exact Hdata|exact Hload].
Defined.

Lemma useQuery_without_initialData_witness :
  data (useQuery serverClient (Given (userArgs 1)) (Given hydratedWithNull)) = None
  ∧ isLoading (useQuery serverClient (Given (userArgs 1)) (Given hydratedWithNull))
    = true.
Proof.
  destruct (useQuery_without_initialData serverClient (Given (userArgs 1))
              (Given hydratedWithNull)) as [_ Hoff]; [reflexivity|].
  destruct Hoff as (Hdata & _ & Hload); [reflexivity|].
  split; [exact Hdata|exact Hload].
Defined.

Lemma useQuery_initialData_becomes_previous_witness :
  state_result (state hydratedThenAnswered) = Value (JsNumber 8)
  ∧ ∃ h', step hydratedThenAnswered (ArgsChanged (Given (userArgs 2))) = Some h'
        ∧ state_lastResult (state h') = Value (JsNumber 7)
        ∧ data h' = Some (JsNumber 7) ∧ isStale h' = true.
Proof.
  split; [vm_compute; reflexivity|].
  destruct (step hydratedThenAnswered (ArgsChanged (Given (userArgs 2))))
    as [h'|] eqn:Hstep; [|by vm_compute in Hstep].
  exists h'. split; [done|].
  destruct (useQuery_initialData_becomes_previous hydratedThenAnswered
              (Given (userArgs 2)) h' (JsNumber 7))
    as (Hlast & _ & _ & Hshown).
  - vm_compute; reflexivity.
  - vm_compute; reflexivity.
  - vm_compute. intros [=].
  - exact Hstep.
  - split; [exact Hlast|].
    destruct Hshown as (Hdata & Hstale & _).
    + vm_compute; reflexivity.
    + vm_compute; reflexivity.
    + right. vm_compute; reflexivity.
    + split; [exact Hdata|exact Hstale].
Defined.

Lemma useQuery_initialData_never_returns_witness :
  state_haveArgsEverChanged (state (Memo.hook hydratedMovedOn)) = true
  ∧ ∃ m', Memo.run hydratedMovedOn [ArgsChanged (Given (userArgs 1))] = Some m'
        ∧ argsKey (parseArgs (args (Memo.hook m')))
          = argsKey (initialArgs (Memo.hook m'))
        ∧ state_haveArgsEverChanged (state (Memo.hook m')) = true
        ∧ Memo.returnsStateResult (Memo.hook m') = false
        ∧ Memo.data m' = Some (JsNumber 8).
Proof.
  assert (state_haveArgsEverChanged (state (Memo.hook hydratedMovedOn)) = true)
    as Hchanged by (vm_compute; reflexivity).
  split; [exact Hchanged|].
  destruct (Memo.run hydratedMovedOn [ArgsChanged (Given (userArgs 1))])
    as [m'|] eqn:Hrun; [|by vm_compute in Hrun].
  exists m'. split; [done|].
  destruct (useQuery_initialData_never_returns hydratedMovedOn
              [ArgsChanged (Given (userArgs 1))] m' Hchanged Hrun)
    as (Hlater & Hreturns & _).
  injection Hrun as <-.
  split; [vm_compute; reflexivity|]. split; [exact Hlater|].
  split; [exact Hreturns|vm_compute; reflexivity].
Defined.

Lemma useQuery_cached_result_shown_witness :
  ∃ h', step onSecondUser (ArgsChanged (Given (userArgs 1))) = Some h'
      ∧ result h' = Value (JsNumber 5)
      ∧ isStale h' = false ∧ isLoading h' = false.
Proof.
  destruct (step onSecondUser (ArgsChanged (Given (userArgs 1))))
    as [h'|] eqn:Hstep; [|by vm_compute in Hstep].
  exists h'. split; [done|].
  apply (useQuery_cached_result_shown onSecondUser (Given (userArgs 1)) h').
  - exact Hstep.
  - vm_compute; reflexivity.
  - vm_compute; reflexivity.
  - intros [=].
  - left. vm_compute; reflexivity.
Defined.

Lemma useQuery_one_live_subscription_witness :
  run (mounted noOptions) answeredThenOn = Some onSecondUser
  ∧ subscription onSecondUser = Some (1, userArgs 2)
  ∧ Registry.live (registry (client onSecondUser)) 1 = Some (userArgs 2)
  ∧ Registry.live (registry (client onSecondUser)) 0 = None.
Proof.
  assert (run (mounted noOptions) answeredThenOn = Some onSecondUser) as Hrun
    by (vm_compute; reflexivity).
  assert (subscription onSecondUser = Some (1, userArgs 2)) as Hsub
    by (vm_compute; reflexivity).
  split; [exact Hrun|]. split; [exact Hsub|]. split.
  - refine (proj2 (proj1 (useQuery_one_live_subscription freshClient
                            (Given (userArgs 1)) (Given noOptions)
                            answeredThenOn onSecondUser _ Hrun 1 (userArgs 2) _))
              Hsub).
    + intros id Hid. vm_compute in Hid. discriminate.
    + vm_compute. lia.
  - vm_compute; reflexivity.
Defined.

Lemma useQuery_silent_when_off_witness :
  run (mounted switchedOff) [] = Some (mounted switchedOff)
  ∧ ∀ id, Registry.live (registry (client (mounted switchedOff))) id = None.
Proof.
  split; [reflexivity|]. intros id.
  destruct (useQuery_silent_when_off freshClient (Given (userArgs 1))
              (Given switchedOff) [] (mounted switchedOff)) as [Hoff _].
  - intros id' Hid. vm_compute in Hid. discriminate.
  - reflexivity.
  - apply Hoff; [reflexivity|]. vm_compute. lia.
Defined.

End queries.

Section lists.
Import UsePaginatedQuery PageHistory ChatPage.

Lemma usePaginatedQuery_last_loading_page_witness :
  status (loadMore 50 (firstPageShown defaultPages)) = LoadingMore
  ∧ status (onData "after-first" secondPage (loadMore 50 (firstPageShown defaultPages)))
    = CanLoadMore
  ∧ nextCursor (onData "after-first" secondPage
                  (loadMore 50 (firstPageShown defaultPages)))
    = Some "after-zeroth".
Proof.
  split; [vm_compute; reflexivity|].
  apply (usePaginatedQuery_last_loading_page "after-first" secondPage
           (loadMore 50 (firstPageShown defaultPages))).
  intros other Hother.
  assert (pagesLoading (loadMore 50 (firstPageShown defaultPages))
          = <["after-first" := true]> {[ "initial" := false ]}) as ->
    by (vm_compute; reflexivity).
  rewrite lookup_insert_ne by done.
  intros [_ [=]]%lookup_singleton_Some.
Defined.

Lemma usePaginatedQuery_pages_keep_position_witness :
  PaginationResult.continueCursor <$> pages (firstPageShown defaultPages)
  = ["after-first"]
  ∧ PaginationResult.continueCursor
      <$> pages (run (firstPageShown defaultPages)
                   [LoadMore 50; PageData 1 secondPage; PageData 0 firstPageEdited])
    = ["after-first"; "after-zeroth"]
  ∧ 1 ≤ length (pages (run (firstPageShown defaultPages)
                          [LoadMore 50; PageData 1 secondPage;
                           PageData 0 firstPageEdited])).
Proof.
  split; [vm_compute; reflexivity|]. split; [vm_compute; reflexivity|].
  refine (proj2 (usePaginatedQuery_pages_keep_position
                   (firstPageShown defaultPages)
                   [LoadMore 50; PageData 1 secondPage; PageData 0 firstPageEdited]
                   _)).
  by repeat constructor.
Defined.

Lemma usePaginatedQuery_hydration_witness :
  results (messageList [] hydratedList) = ["second"; "first"]
  ∧ status (messageList [] hydratedList) = CanLoadMore
  ∧ results (onData "initial" firstPageEdited (messageList [] hydratedList))
    = ["second (edited)"; "first"].
Proof.
  destruct (usePaginatedQuery_hydration (E := string) Registry.empty
              (Given ([] : list string)) hydratedList firstPage eq_refl)
    as (Hresults & Hstatus & _ & Hfirst).
  destruct (Hfirst firstPageEdited eq_refl) as (_ & Hedited & _).
  split; [exact Hresults|]. split; [exact Hstatus|exact Hedited].
Defined.

Lemma usePaginatedQuery_no_leak_unless_replaced_witness :
  Registry.live (client (run (messageList [] defaultPages) twoPages)) 0
  = Some {| queryArgs := []; numItems := 10; cursor := None |}
  ∧ Registry.live (client (run (messageList [] defaultPages) twoPages)) 1
    = Some {| queryArgs := []; numItems := 10; cursor := Some "after-first" |}
  ∧ (∀ id req,
       Registry.live
         (client (step (run (messageList [] defaultPages) twoPages)
                    (ArgsChanged (Given ["ads"]))))
         id = Some req
       ↔ id = 2 ∧ req = {| queryArgs := ["ads"]; numItems := 10; cursor := None |})
  ∧ ∀ id, Registry.live
            (client (step (run (messageList [] defaultPages) twoPages) Unmounted))
            id = None.
Proof.
  split; [vm_compute; reflexivity|]. split; [vm_compute; reflexivity|].
  destruct (usePaginatedQuery_no_leak_unless_replaced (E := string) Registry.empty
              (Given ([] : list string)) defaultPages twoPages)
    as (_ & Hchange & Hunmount).
  - intros id Hid. vm_compute in Hid. discriminate.
  - simpl. repeat split; vm_compute; reflexivity.
  - split.
    + intros id req. apply (Hchange (Given ["ads"]) id req). simpl. lia.
    + intros id. apply Hunmount. simpl. lia.
Defined.



End lists.

Section setting_up.
Import Setup.

(** On the server the client is made disabled; an explicit
    [disabled: undefined] takes that default away; nothing is put into the
    context when the constructor throws, or when the url is empty. *)
Example setupConvex_on_the_server :
  setupConvex recordingClient false (UrlString deployment) noClientOptions ∅
  = inr {[ _contextKey := (deployment, {| disabled := Some true; others := tt |}) ]}
  ∧ setupConvex recordingClient false (UrlString deployment) disabledUndefined ∅
    = inr {[ _contextKey := (deployment, {| disabled := None; others := tt |}) ]}
  ∧ setupConvex recordingClient true (UrlString deployment) noClientOptions ∅
    = inr {[ _contextKey := (deployment, {| disabled := Some false; others := tt |}) ]}
  ∧ setupConvex refusingClient true (UrlString deployment) noClientOptions ∅
    = inl "Invalid deployment address"
  ∧ setupConvex recordingClient true (UrlString "") noClientOptions ∅
    = inl urlMessage
  ∧ setupConvex recordingClient true NotAString noClientOptions ∅
    = inl urlMessage.
Proof. vm_compute. repeat split. Qed.

End setting_up.

Section seeding.
Import Messages.

Lemma seed_fills_up_to_200_witness :
  seed 193 = Some [5; 2]%Z ∧ (193 + inserted [5; 2] = 200)%Z.
Proof.
  destruct (seed_fills_up_to_200 193) as [_ Hfew]; [lia|].
  destruct Hfew as (sizes & Hseed & Hsum & _); [lia|].
  vm_compute in Hseed. injection Hseed as <-.
  split; [reflexivity|exact Hsum].
Defined.

End seeding.
End more_on_chat.
